(** * Fix-Your-City report store: a shallow embedding of [app.js]

    The program keeps every citizen report in one [localStorage] slot as a
    JSON array; its pages read and update that slot.  This file embeds the
    store functions ([getReports], [saveReports], [addReport],
    [updateReportStatus]), the identifier generator, the submit handler of
    the report form, the status buttons of the dashboard and of the
    "My Reports" page, and the filter, sort and style expressions of the
    views, and proves the properties the specification states about them.

    Conventions of the embedding.
    - A JavaScript string is the list of its UTF-16 code units ([N]).
      Punctuation is written by code: 34 quotation mark, 44 comma,
      58 colon, 91 and 93 square brackets, 92 backslash, 123 and 125
      braces, 48 to 57 the digits.
    - A JavaScript value read from or written to the slot is a [value]
      (what JSON can denote).  A Number is kept as the numeral that
      denotes it: the conversion to a double and back is floating point
      and is not modelled, so the text written for a Number can differ
      from the engine's.  Every statement about a value the program
      writes is therefore made for values without Numbers ([plain]);
      the reports of the program have string fields only.
    - [JSON.parse] and [JSON.stringify] are written out (they are engine
      built-ins, modelled after ECMA-262), so that every store operation
      can be run on a concrete slot.
    - [localStorage] is a finite map from keys to strings.  The size of
      the storage area is bounded by a quota, and [setItem] throws when
      a write would exceed it.  The quota and the wording of the
      messages of engine-raised exceptions are left to the
      implementation; they are fields of the [engine] a state carries.
    - A click is modelled for every element of the handlers' classes
      that carries the data attributes they read, whatever the values
      and whatever markup it came from: the templates interpolate stored
      text into the page as markup, so the buttons on a page are not
      only those the templates write.
    - Code that can throw returns a [result]; the store, the console and
      the form are threaded through explicitly in the monad [JS]. *)

From Stdlib Require Import ZArith NArith Lia String Ascii DecimalPos.
From Stdlib Require Import Sorting.Sorted Sorting.Permutation.
From stdpp Require Import base option list gmap.

Set Default Proof Using "Type".

(** ** Strings as code-unit sequences *)

Abbreviation jsstring := (list N).

Definition js (s : string) : jsstring :=
  (fun a => N_of_ascii a) <$> list_ascii_of_string s.
Arguments js s%_string.

Definition ch (a : ascii) : N := N_of_ascii a.
Arguments ch a%_char.

Definition is_digit (c : N) : bool := (48 <=? c)%N && (c <=? 57)%N.
Definition is_high_surrogate (c : N) : bool := (55296 <=? c)%N && (c <=? 56319)%N.
Definition is_low_surrogate (c : N) : bool := (56320 <=? c)%N && (c <=? 57343)%N.
Definition is_ws (c : N) : bool :=
  (c =? 32)%N || (c =? 9)%N || (c =? 10)%N || (c =? 13)%N.

(** Lower-case hexadecimal digit of a number below sixteen. *)
Definition hex_digit (d : N) : N :=
  if (d <? 10)%N then (48 + d)%N else (87 + d)%N.

Definition hex_value (c : N) : option N :=
  if is_digit c then Some (c - 48)%N
  else if (97 <=? c)%N && (c <=? 102)%N then Some (c - 87)%N
  else if (65 <=? c)%N && (c <=? 70)%N then Some (c - 55)%N
  else None.

Definition hex4 (c : N) : jsstring :=
  [hex_digit (c / 4096 mod 16); hex_digit (c / 256 mod 16);
   hex_digit (c / 16 mod 16); hex_digit (c mod 16)]%N.

Definition unhex4 (a b c d : N) : option N :=
  match hex_value a, hex_value b, hex_value c, hex_value d with
  | Some x, Some y, Some z, Some w => Some (((x * 16 + y) * 16 + z) * 16 + w)%N
  | _, _, _, _ => None
  end.

(** ** JSON values *)

Inductive value : Type :=
  | VNull
  | VBool (b : bool)
  | VNum (numeral : jsstring)
  | VStr (s : jsstring)
  | VArr (elems : list value)
  | VObj (props : list (jsstring * value)).

(** ** JSON.stringify *)

Definition unicode_escape (c : N) : jsstring := ch "\" :: ch "u" :: hex4 c.

(** One code unit that is not part of a surrogate pair
    (QuoteJSONString, table of single-character escapes included). *)
Definition quote_unit (c : N) : jsstring :=
  if (c =? 34)%N then [92; 34]%N
  else if (c =? 92)%N then js "\\"
  else if (c =? 8)%N then js "\b"
  else if (c =? 12)%N then js "\f"
  else if (c =? 10)%N then js "\n"
  else if (c =? 13)%N then js "\r"
  else if (c =? 9)%N then js "\t"
  else if (c <? 32)%N || is_high_surrogate c || is_low_surrogate c
       then unicode_escape c
  else [c].

Fixpoint quote_body (s : jsstring) : jsstring :=
  match s with
  | [] => []
  | c :: s' =>
      if is_high_surrogate c then
        match s' with
        | d :: s'' =>
            if is_low_surrogate d then c :: d :: quote_body s''
            else unicode_escape c ++ quote_body s'
        | [] => unicode_escape c
        end
      else quote_unit c ++ quote_body s'
  end.

Definition quote (s : jsstring) : jsstring := 34%N :: quote_body s ++ [34%N].

Fixpoint join_comma (parts : list jsstring) : jsstring :=
  match parts with
  | [] => []
  | [p] => p
  | p :: ps => p ++ 44%N :: join_comma ps
  end.

(** Property keys that are array indices (canonical numerals below
    2^32 - 1) are enumerated first, in ascending order; the other keys
    follow in creation order (OrdinaryOwnPropertyKeys). *)
Fixpoint digits_value (acc : N) (s : jsstring) : option N :=
  match s with
  | [] => Some acc
  | c :: s' => if is_digit c then digits_value (acc * 10 + (c - 48))%N s' else None
  end.

Definition array_index (k : jsstring) : option N :=
  match k with
  | [] => None
  | c :: rest =>
      if (c =? 48)%N && negb (bool_decide (rest = [])) then None
      else if Nat.ltb 10 (length k) then None
      else match digits_value 0 k with
           | Some n => if (n <? 4294967295)%N then Some n else None
           | None => None
           end
  end.

Fixpoint insert_index {A} (n : N) (x : A) (l : list (N * A)) : list (N * A) :=
  match l with
  | [] => [(n, x)]
  | (m, y) :: l' =>
      if (n <? m)%N then (n, x) :: l else (m, y) :: insert_index n x l'
  end.

Fixpoint index_props {A} (ps : list (jsstring * A)) : list (N * (jsstring * A)) :=
  match ps with
  | [] => []
  | (k, x) :: ps' =>
      match array_index k with
      | Some n => insert_index n (k, x) (index_props ps')
      | None => index_props ps'
      end
  end.

Fixpoint named_props {A} (ps : list (jsstring * A)) : list (jsstring * A) :=
  match ps with
  | [] => []
  | (k, x) :: ps' =>
      match array_index k with
      | Some _ => named_props ps'
      | None => (k, x) :: named_props ps'
      end
  end.

Definition own_props {A} (ps : list (jsstring * A)) : list (jsstring * A) :=
  (snd <$> index_props ps) ++ named_props ps.

Definition member_text (m : jsstring * jsstring) : jsstring :=
  quote (fst m) ++ 58%N :: snd m.

Fixpoint stringify (v : value) : jsstring :=
  match v with
  | VNull => js "null"
  | VBool true => js "true"
  | VBool false => js "false"
  | VNum numeral => numeral
  | VStr s => quote s
  | VArr elems => 91%N :: join_comma (stringify <$> elems) ++ [93%N]
  | VObj props =>
      123%N :: join_comma
        (member_text <$> own_props ((fun kv => (fst kv, stringify (snd kv))) <$> props))
        ++ [125%N]
  end.

Definition JSON_stringify (v : value) : jsstring := stringify v.

(** ** JSON.parse *)

Fixpoint skip_ws (s : jsstring) : jsstring :=
  match s with
  | c :: s' => if is_ws c then skip_ws s' else s
  | [] => []
  end.

Definition simple_escape (e : N) : option N :=
  if (e =? 34)%N then Some 34%N
  else if (e =? 92)%N then Some 92%N
  else if (e =? 47)%N then Some 47%N
  else if (e =? ch "b")%N then Some 8%N
  else if (e =? ch "f")%N then Some 12%N
  else if (e =? ch "n")%N then Some 10%N
  else if (e =? ch "r")%N then Some 13%N
  else if (e =? ch "t")%N then Some 9%N
  else None.

Definition push_unit (c : N) (r : option (jsstring * jsstring))
  : option (jsstring * jsstring) :=
  match r with
  | Some (body, rest) => Some (c :: body, rest)
  | None => None
  end.

(** The characters of a string literal after its opening quote, up to and
    including the closing quote. *)
Fixpoint parse_chars (s : jsstring) : option (jsstring * jsstring) :=
  match s with
  | [] => None
  | c :: s' =>
      if (c =? 34)%N then Some ([], s')
      else if (c =? 92)%N then
        match s' with
        | [] => None
        | e :: s'' =>
            if (e =? ch "u")%N then
              match s'' with
              | h1 :: h2 :: h3 :: h4 :: s4 =>
                  match unhex4 h1 h2 h3 h4 with
                  | Some u => push_unit u (parse_chars s4)
                  | None => None
                  end
              | _ => None
              end
            else
              match simple_escape e with
              | Some u => push_unit u (parse_chars s'')
              | None => None
              end
        end
      else if (c <? 32)%N then None
      else push_unit c (parse_chars s')
  end.

Fixpoint span_digits (s : jsstring) : jsstring * jsstring :=
  match s with
  | c :: s' =>
      if is_digit c then let '(ds, rest) := span_digits s' in (c :: ds, rest)
      else ([], s)
  | [] => ([], [])
  end.

Definition number_sign (s : jsstring) : jsstring * jsstring :=
  match s with
  | c :: s' => if (c =? ch "-")%N then ([c], s') else ([], s)
  | [] => ([], [])
  end.

Definition number_int (s : jsstring) : option (jsstring * jsstring) :=
  match s with
  | c :: s' =>
      if (c =? 48)%N then Some ([c], s')
      else if is_digit c then let '(ds, rest) := span_digits s' in Some (c :: ds, rest)
      else None
  | [] => None
  end.

Definition number_frac (s : jsstring) : option (jsstring * jsstring) :=
  match s with
  | c :: s' =>
      if (c =? ch ".")%N then
        match span_digits s' with
        | ([], _) => None
        | (ds, rest) => Some (c :: ds, rest)
        end
      else Some ([], s)
  | [] => Some ([], [])
  end.

Definition exponent_sign (s : jsstring) : jsstring * jsstring :=
  match s with
  | c :: s' =>
      if (c =? ch "-")%N || (c =? ch "+")%N then ([c], s') else ([], s)
  | [] => ([], [])
  end.

Definition number_exp (s : jsstring) : option (jsstring * jsstring) :=
  match s with
  | c :: s' =>
      if (c =? ch "e")%N || (c =? ch "E")%N then
        let '(sg, s1) := exponent_sign s' in
        match span_digits s1 with
        | ([], _) => None
        | (ds, rest) => Some (c :: sg ++ ds, rest)
        end
      else Some ([], s)
  | [] => Some ([], [])
  end.

Definition parse_number (s : jsstring) : option (jsstring * jsstring) :=
  let '(sg, s1) := number_sign s in
  '(int, s2) ← number_int s1;
  '(frac, s3) ← number_frac s2;
  '(exp, s4) ← number_exp s3;
  Some (sg ++ int ++ frac ++ exp, s4).

Fixpoint strip_prefix (p s : jsstring) : option jsstring :=
  match p, s with
  | [], _ => Some s
  | a :: p', b :: s' => if (a =? b)%N then strip_prefix p' s' else None
  | _ :: _, [] => None
  end.

(** Outcome of the recursive-descent parser.  [NoFuel] is the recursion
    bound of the embedding; [JSON_parse] below gives enough fuel for it
    never to occur ([parse_value_fuel]). *)
Inductive parsed (A : Type) : Type :=
  | Parsed (a : A) (rest : jsstring)
  | Malformed
  | NoFuel.
Arguments Parsed {A} a rest.
Arguments Malformed {A}.
Arguments NoFuel {A}.

(** [obj[k] = v] on the property list of an object: an existing key keeps
    its place and takes the new value, a new key goes last. *)
Fixpoint set_prop (k : jsstring) (v : value) (ps : list (jsstring * value))
  : list (jsstring * value) :=
  match ps with
  | [] => [(k, v)]
  | (k', v') :: ps' =>
      if bool_decide (k' = k) then (k, v) :: ps' else (k', v') :: set_prop k v ps'
  end.

Fixpoint get_prop (k : jsstring) (ps : list (jsstring * value)) : option value :=
  match ps with
  | [] => None
  | (k', v) :: ps' => if bool_decide (k' = k) then Some v else get_prop k ps'
  end.

Definition build_object (members : list (jsstring * value)) : value :=
  VObj (foldl (fun ps kv => set_prop (fst kv) (snd kv) ps) [] members).

Fixpoint parse_value (fuel : nat) (s : jsstring) : parsed value :=
  match fuel with
  | O => NoFuel
  | S fuel =>
      match skip_ws s with
      | [] => Malformed
      | c :: s' =>
          if (c =? 34)%N then
            match parse_chars s' with
            | Some (body, rest) => Parsed (VStr body) rest
            | None => Malformed
            end
          else if (c =? 91)%N then
            match skip_ws s' with
            | d :: s'' =>
                if (d =? 93)%N then Parsed (VArr []) s''
                else match parse_elements fuel s' with
                     | Parsed vs rest => Parsed (VArr vs) rest
                     | Malformed => Malformed
                     | NoFuel => NoFuel
                     end
            | [] => Malformed
            end
          else if (c =? 123)%N then
            match skip_ws s' with
            | d :: s'' =>
                if (d =? 125)%N then Parsed (VObj []) s''
                else match parse_members fuel s' with
                     | Parsed ms rest => Parsed (build_object ms) rest
                     | Malformed => Malformed
                     | NoFuel => NoFuel
                     end
            | [] => Malformed
            end
          else if (c =? ch "-")%N || is_digit c then
            match parse_number (c :: s') with
            | Some (numeral, rest) => Parsed (VNum numeral) rest
            | None => Malformed
            end
          else
            match strip_prefix (js "null") (c :: s') with
            | Some rest => Parsed VNull rest
            | None =>
            match strip_prefix (js "true") (c :: s') with
            | Some rest => Parsed (VBool true) rest
            | None =>
            match strip_prefix (js "false") (c :: s') with
            | Some rest => Parsed (VBool false) rest
            | None => Malformed
            end end end
      end
  end
with parse_elements (fuel : nat) (s : jsstring) : parsed (list value) :=
  match fuel with
  | O => NoFuel
  | S fuel =>
      match parse_value fuel s with
      | Parsed v rest =>
          match skip_ws rest with
          | c :: rest' =>
              if (c =? 44)%N then
                match parse_elements fuel rest' with
                | Parsed vs rest'' => Parsed (v :: vs) rest''
                | Malformed => Malformed
                | NoFuel => NoFuel
                end
              else if (c =? 93)%N then Parsed [v] rest'
              else Malformed
          | [] => Malformed
          end
      | Malformed => Malformed
      | NoFuel => NoFuel
      end
  end
with parse_members (fuel : nat) (s : jsstring) : parsed (list (jsstring * value)) :=
  match fuel with
  | O => NoFuel
  | S fuel =>
      match skip_ws s with
      | q :: s1 =>
          if (q =? 34)%N then
            match parse_chars s1 with
            | Some (k, s2) =>
                match skip_ws s2 with
                | c :: s3 =>
                    if (c =? 58)%N then
                      match parse_value fuel s3 with
                      | Parsed v rest =>
                          match skip_ws rest with
                          | d :: rest' =>
                              if (d =? 44)%N then
                                match parse_members fuel rest' with
                                | Parsed ms rest'' => Parsed ((k, v) :: ms) rest''
                                | Malformed => Malformed
                                | NoFuel => NoFuel
                                end
                              else if (d =? 125)%N then Parsed [(k, v)] rest'
                              else Malformed
                          | [] => Malformed
                          end
                      | Malformed => Malformed
                      | NoFuel => NoFuel
                      end
                    else Malformed
                | [] => Malformed
                end
            | None => Malformed
            end
          else Malformed
      | [] => Malformed
      end
  end.

(** What an engine-raised [TypeError] complains about: a call of
    something that is not a function ([reports.push] on a value without
    that method), or a property read or written on [null] or
    [undefined]. *)
Inductive type_error : Type :=
  | NotAFunction (callee : jsstring)
  | ReadOfNull (property : jsstring)
  | WriteOfNull (property : jsstring)
  | WriteOfUndefined (property : jsstring).

(** JavaScript exceptions.  [QuotaExceededError] is the [DOMException]
    [localStorage.setItem] throws when the origin's quota is exhausted;
    [ProgressEvent] is the event object a failed [FileReader] rejects
    with (it has no [message]). *)
Inductive exn : Type :=
  | SyntaxError
  | TypeError (cause : type_error)
  | QuotaExceededError
  | Error (message : jsstring)
  | ProgressEvent.

Inductive result (A : Type) : Type :=
  | Ok (a : A)
  | Throw (e : exn).
Arguments Ok {A} a.
Arguments Throw {A} e.

Definition parse_fuel (text : jsstring) : nat := 2 * length text + 1.

Definition JSON_parse (text : jsstring) : result value :=
  match parse_value (parse_fuel text) text with
  | Parsed v rest =>
      match skip_ws rest with
      | [] => Ok v
      | _ :: _ => Throw SyntaxError
      end
  | Malformed => Throw SyntaxError
  | NoFuel => Throw SyntaxError
  end.

(** ** The browser state and the effects of the program *)

Inductive File : Type :=
  | ReadableFile (dataURL : jsstring)
  | UnreadableFile.

(** The report form of the page, as far as the submit handler reads or
    writes it. *)
Record form : Type := Form {
  issue_category : jsstring;
  location_value : jsstring;
  description_value : jsstring;
  photo_upload : list File;
  submit_disabled : bool;
  submit_text : jsstring;
  message_text : jsstring;
  message_class : jsstring;
  message_hidden : bool;
}.

(** What the program's behaviour depends on but the language leaves to
    the implementation: the number of UTF-16 code units (keys plus
    values) the origin's storage area may hold, and the [message] text
    of the exceptions the engine itself raises. *)
Record engine : Type := Engine {
  quota : N;
  wording : exn -> jsstring;
}.

Record world : Type := World {
  localStorage : gmap jsstring jsstring;
  console : list (jsstring * exn);
  page : form;
  browser : engine;
}.

(** The code units a storage area holds. *)
Definition storage_size (area : gmap jsstring jsstring) : N :=
  foldr N.add 0%N
    ((fun kv => N.of_nat (length kv.1) + N.of_nat (length kv.2))%N
       <$> map_to_list area).

Definition JS (A : Type) : Type := world -> result A * world.

#[export] Instance JS_ret : MRet JS := fun A a w => (Ok a, w).
#[export] Instance JS_bind : MBind JS := fun A B k m w =>
  match m w with
  | (Ok a, w') => k a w'
  | (Throw e, w') => (Throw e, w')
  end.

Definition throw {A} (e : exn) : JS A := fun w => (Throw e, w).

Definition try_catch {A} (body : JS A) (handler : exn -> JS A) : JS A := fun w =>
  match body w with
  | (Ok a, w') => (Ok a, w')
  | (Throw e, w') => handler e w'
  end.

Definition lift {A} (r : result A) : JS A := fun w => (r, w).

Definition localStorage_getItem (key : jsstring) : JS (option jsstring) := fun w =>
  (Ok (localStorage w !! key), w).

(** [localStorage.setItem(key, text)]: when the area with the new
    entry is over the quota the call throws and the area stays as it
    was. *)
Definition localStorage_setItem (key text : jsstring) : JS unit := fun w =>
  let area := <[key := text]> (localStorage w) in
  if (storage_size area <=? quota (browser w))%N
  then (Ok tt, World area (console w) (page w) (browser w))
  else (Throw QuotaExceededError, w).

Definition localStorage_removeItem (key : jsstring) : JS unit := fun w =>
  (Ok tt, World (delete key (localStorage w)) (console w) (page w) (browser w)).

Definition console_error (msg : jsstring) (e : exn) : JS unit := fun w =>
  (Ok tt, World (localStorage w) (console w ++ [(msg, e)]) (page w) (browser w)).

(** [item || dflt]: [null] and the empty string are falsy. *)
Definition or_else (item : option jsstring) (dflt : jsstring) : jsstring :=
  match item with
  | Some (c :: s) => c :: s
  | Some [] | None => dflt
  end.

(** ** Data store functions *)

Definition STORAGE_KEY : jsstring := js "fixYourCityReports".

Definition getReports : JS value :=
  try_catch
    (item ← localStorage_getItem STORAGE_KEY;
     lift (JSON_parse (or_else item (js "[]"))))
    (fun e =>
       console_error (js "Error parsing reports from localStorage") e;;
       mret (VArr [])).

Definition saveReports (reports : value) : JS unit :=
  localStorage_setItem STORAGE_KEY (JSON_stringify reports).

(** [reports.push(x)]: only an array has a [push] method; on [null]
    already the property read throws. *)
Definition Array_push (reports x : value) : JS value :=
  match reports with
  | VArr elems => mret (VArr (elems ++ [x]))
  | VNull => throw (TypeError (ReadOfNull (js "push")))
  | _ => throw (TypeError (NotAFunction (js "reports.push")))
  end.

Definition addReport (report : value) : JS unit :=
  reports ← getReports;
  reports ← Array_push reports report;
  saveReports reports.

(** [r.k]: reading a property of [null] throws; a value that is not an
    object has none of the properties the program reads. *)
Definition member (r : value) (k : jsstring) : JS (option value) :=
  match r with
  | VNull => throw (TypeError (ReadOfNull k))
  | VObj props => mret (get_prop k props)
  | _ => mret None
  end.

(** [x === s] for a string [s]. *)
Definition is_string (x : option value) (s : jsstring) : bool :=
  match x with
  | Some (VStr t) => bool_decide (t = s)
  | _ => false
  end.

Fixpoint findIndex_from (i : Z) (p : value -> JS bool) (elems : list value) : JS Z :=
  match elems with
  | [] => mret (-1)%Z
  | r :: elems' =>
      b ← p r;
      if b : bool then mret i else findIndex_from (i + 1)%Z p elems'
  end.

Definition Array_findIndex (reports : value) (p : value -> JS bool) : JS Z :=
  match reports with
  | VArr elems => findIndex_from 0 p elems
  | VNull => throw (TypeError (ReadOfNull (js "findIndex")))
  | _ => throw (TypeError (NotAFunction (js "reports.findIndex")))
  end.

(** [r.k = v]: on [null] it throws, on an object it sets the property, on
    any other value it has no effect that [JSON.stringify] shows. *)
Definition assign_member (r : value) (k : jsstring) (v : value) : JS value :=
  match r with
  | VNull => throw (TypeError (WriteOfNull k))
  | VObj props => mret (VObj (set_prop k v props))
  | _ => mret r
  end.

(** [reports[i].k = v] for an array [reports]. *)
Definition assign_at (reports : value) (i : Z) (k : jsstring) (v : value) : JS value :=
  match reports with
  | VArr elems =>
      match elems !! Z.to_nat i with
      | Some r =>
          r' ← assign_member r k v;
          mret (VArr (<[Z.to_nat i := r']> elems))
      | None => throw (TypeError (WriteOfUndefined k))
      end
  | _ => throw (TypeError (WriteOfUndefined k))
  end.

Definition updateReportStatus (reportId newStatus : jsstring) : JS unit :=
  reports ← getReports;
  reportIndex ← Array_findIndex reports
    (fun r => id ← member r (js "id"); mret (is_string id reportId));
  if bool_decide (reportIndex ≠ (-1)%Z) then
    reports ← assign_at reports reportIndex (js "status") (VStr newStatus);
    saveReports reports
  else mret tt.

(** ** Reports *)

Record Report : Type := mkReport {
  id : jsstring;
  category : jsstring;
  location : jsstring;
  description : jsstring;
  imageData : jsstring;
  status : jsstring;
  submittedAt : jsstring;
}.

(** The object literal of the submit handler, properties in source order. *)
Definition report_object (r : Report) : value :=
  VObj [(js "id", VStr (id r));
        (js "category", VStr (category r));
        (js "location", VStr (location r));
        (js "description", VStr (description r));
        (js "imageData", VStr (imageData r));
        (js "status", VStr (status r));
        (js "submittedAt", VStr (submittedAt r))].

Definition reports_array (R : list Report) : value := VArr (report_object <$> R).

(** ** Identifiers *)

Fixpoint uint_digits (d : Decimal.uint) : jsstring :=
  match d with
  | Decimal.Nil => []
  | Decimal.D0 d => 48%N :: uint_digits d
  | Decimal.D1 d => 49%N :: uint_digits d
  | Decimal.D2 d => 50%N :: uint_digits d
  | Decimal.D3 d => 51%N :: uint_digits d
  | Decimal.D4 d => 52%N :: uint_digits d
  | Decimal.D5 d => 53%N :: uint_digits d
  | Decimal.D6 d => 54%N :: uint_digits d
  | Decimal.D7 d => 55%N :: uint_digits d
  | Decimal.D8 d => 56%N :: uint_digits d
  | Decimal.D9 d => 57%N :: uint_digits d
  end.

(** An integer in a template literal (time values are integers well
    below 10^21, so the text is the plain decimal numeral). *)
Definition Number_toString (n : Z) : jsstring :=
  match n with
  | Z0 => [48%N]
  | Zpos p => uint_digits (Pos.to_uint p)
  | Zneg p => 45%N :: uint_digits (Pos.to_uint p)
  end.

(** [s.substring(from, to)] for [from <= to]. *)
Definition substring (from to : nat) (s : jsstring) : jsstring :=
  take (to - from) (drop from s).

(** What one run of the submit handler reads from the clock and from the
    random generator: [Date.now()], [Math.random().toString(36)] (the
    base-36 numeral of the random double, taken as given) and
    [new Date().toISOString()]. *)
Record readings : Type := Readings {
  Date_now : Z;
  Math_random_toString36 : jsstring;
  Date_toISOString : jsstring;
}.

Definition generateId (env : readings) : jsstring :=
  js "report_" ++ Number_toString (Date_now env) ++ js "_"
  ++ substring 2 9 (Math_random_toString36 env).

(** ** The submit handler of the report form *)

Definition readImageAsDataURL (file : File) : JS jsstring :=
  match file with
  | ReadableFile dataURL => mret dataURL
  | UnreadableFile => throw ProgressEvent
  end.

(** [`${error.message}`].  An [Error] carries its message and a
    [ProgressEvent] has none; the message of an exception the engine
    raised is the engine's. *)
Definition error_message (b : engine) (e : exn) : jsstring :=
  match e with
  | Error message => message
  | ProgressEvent => js "undefined"
  | SyntaxError | TypeError _ | QuotaExceededError => wording b e
  end.

Definition update_page (f : form -> form) : JS unit := fun w =>
  (Ok tt, World (localStorage w) (console w) (f (page w)) (browser w)).

Definition read_page {A} (f : form -> A) : JS A := fun w => (Ok (f (page w)), w).

Definition read_browser : JS engine := fun w => (Ok (browser w), w).

Definition set_submit (disabled : bool) (text : jsstring) (p : form) : form :=
  Form (issue_category p) (location_value p) (description_value p) (photo_upload p)
       disabled text (message_text p) (message_class p) (message_hidden p).

Definition hide_message (p : form) : form :=
  Form (issue_category p) (location_value p) (description_value p) (photo_upload p)
       (submit_disabled p) (submit_text p) (message_text p) (message_class p) true.

(** [textContent = text; className = cls; classList.remove('hidden')]. *)
Definition show_message (text cls : jsstring) (p : form) : form :=
  Form (issue_category p) (location_value p) (description_value p) (photo_upload p)
       (submit_disabled p) (submit_text p) text cls false.

(** [form.reset()]; the controls' default values are taken to be empty. *)
Definition reset_fields (p : form) : form :=
  Form [] [] [] []
       (submit_disabled p) (submit_text p) (message_text p) (message_class p)
       (message_hidden p).

Definition REQUIRED_FIELDS : jsstring :=
  js "Please fill out all required fields and add a photo.".

(** The [try] block of the handler.  The image is read at the [await];
    the delayed closing of the dialog ([setTimeout]) touches neither the
    store nor the controls modelled here. *)
Definition submit_attempt (env : readings) : JS unit :=
  category ← read_page issue_category;
  location ← read_page location_value;
  description ← read_page description_value;
  photoFile ← read_page (fun p => head (photo_upload p));
  match category, location, photoFile with
  | _ :: _, _ :: _, Some file =>
      imageData ← readImageAsDataURL file;
      let newReport :=
        mkReport (generateId env) category location description imageData
                 (js "Pending") (Date_toISOString env) in
      addReport (report_object newReport);;
      update_page (show_message (js "Report submitted successfully!")
                     (js "p-3 rounded-lg text-sm bg-green-100 text-green-800"));;
      update_page (set_submit false (js "Submit Report"));;
      update_page reset_fields
  | _, _, _ => throw (Error REQUIRED_FIELDS)
  end.

(** The report the handler builds from the form and the photo's data
    URL. *)
Definition newReport (env : readings) (imageData : jsstring) (p : form) : Report :=
  mkReport (generateId env) (issue_category p) (location_value p)
           (description_value p) imageData (js "Pending") (Date_toISOString env).

Definition on_submit (env : readings) : JS unit :=
  update_page (set_submit true (js "Submitting..."));;
  update_page hide_message;;
  try_catch (submit_attempt env)
    (fun error =>
       b ← read_browser;
       update_page (show_message (js "Error: " ++ error_message b error)
                      (js "p-3 rounded-lg text-sm bg-red-100 text-red-800"));;
       update_page (set_submit false (js "Submit Report"))).

(** The form after a failed and after a successful attempt. *)
Definition failed_page (b : engine) (error : exn) (p : form) : form :=
  set_submit false (js "Submit Report")
    (show_message (js "Error: " ++ error_message b error)
       (js "p-3 rounded-lg text-sm bg-red-100 text-red-800")
       (hide_message (set_submit true (js "Submitting...") p))).

Definition submitted_page (p : form) : form :=
  reset_fields
    (set_submit false (js "Submit Report")
       (show_message (js "Report submitted successfully!")
          (js "p-3 rounded-lg text-sm bg-green-100 text-green-800")
          (hide_message (set_submit true (js "Submitting...") p)))).

(** ** Status buttons *)

(** A clicked element that a click handler accepts, with the data
    attributes the handler reads: an element of class [status-btn] with
    its [data-id] and [data-status], or one of class [reopen-btn] with
    its [data-id].  The attributes can hold any strings.  An element
    that lacks an attribute the handler reads (the templates write none
    such) is not modelled. *)
Inductive button : Type :=
  | StatusBtn (data_id data_status : jsstring)
  | ReopenBtn (data_id : jsstring).

(** Ids made of ASCII letters, digits and underscores, as [generateId]
    builds them from a clock reading and base-36 digits.  Such an id,
    interpolated into a [data-id] attribute, is read back by the page as
    it stands. *)
Definition plain_id (s : jsstring) : bool :=
  forallb (fun c => is_digit c
                    || (97 <=? c)%N && (c <=? 122)%N
                    || (65 <=? c)%N && (c <=? 90)%N
                    || (c =? 95)%N) s.

(** The buttons the template of [createComplaintCard] itself writes on
    a report's card.  The template also interpolates the report's
    [description], [category] and [location] as markup, so a card can
    carry further elements; the click handler is therefore modelled for
    every [data-id] and [data-status] (see [on_click]), and these lists
    only say what the program's own markup offers. *)
Definition template_card_buttons (report : Report) : list button :=
  (if bool_decide (status report = js "Pending")
   then [StatusBtn (id report) (js "In Progress")] else [])
  ++
  (if bool_decide (status report = js "In Progress")
      || bool_decide (status report = js "Pending")
   then [StatusBtn (id report) (js "Resolved")] else []).

(** The button the template of [initMyReports] itself writes in a
    report's row. *)
Definition template_row_buttons (issue : Report) : list button :=
  if bool_decide (status issue = js "Resolved") then [ReopenBtn (id issue)] else [].

Definition on_click (b : button) : JS unit :=
  match b with
  | StatusBtn reportId newStatus => updateReportStatus reportId newStatus
  | ReopenBtn reportId => updateReportStatus reportId (js "Pending")
  end.

Definition on_logout : JS unit := localStorage_removeItem (js "userType").

(** [r] with its status replaced, every other field as it was. *)
Definition set_status (s : jsstring) (r : Report) : Report :=
  mkReport (id r) (category r) (location r) (description r) (imageData r)
           s (submittedAt r).

(** The report id and the status a click asks for: [dataset.id] and
    [dataset.status] of a status button, [dataset.id] and "Pending" of a
    reopen button. *)
Definition target (b : button) : jsstring * jsstring :=
  match b with
  | StatusBtn reportId newStatus => (reportId, newStatus)
  | ReopenBtn reportId => (reportId, js "Pending")
  end.

(** [R'] is [R] with the status of the first report whose id is [i] set
    to [s], all else as it was. *)
Definition status_set (i s : jsstring) (R R' : list Report) : Prop :=
  exists R1 r R2,
    R = R1 ++ r :: R2 /\ Forall (fun x => id x ≠ i) R1 /\ id r = i
    /\ R' = R1 ++ set_status s r :: R2.

(** ** The events of the system *)

Inductive event : Type :=
  | Submit (category location description : jsstring) (files : list File)
           (env : readings)
  | Click (b : button)
  | Logout.

(** The user's input in the form before the submit event. *)
Definition fill_form (category location description : jsstring)
    (files : list File) (p : form) : form :=
  Form category location description files
       (submit_disabled p) (submit_text p) (message_text p) (message_class p)
       (message_hidden p).

Definition handle (e : event) : JS unit :=
  match e with
  | Submit category location description files env =>
      update_page (fill_form category location description files);;
      on_submit env
  | Click b => on_click b
  | Logout => on_logout
  end.

(** The store reads as the report sequence [R]. *)
Definition holds (R : list Report) (w : world) : Prop :=
  getReports w = (Ok (reports_array R), w).


(** The buttons the two templates write for the reports of [R]. *)
Definition template_button (R : list Report) (b : button) : Prop :=
  exists r, r ∈ R /\ (b ∈ template_card_buttons r \/ b ∈ template_row_buttons r).

(** The status changes the buttons of the two pages can request. *)
Inductive code_transition : jsstring -> jsstring -> Prop :=
  | mark_in_progress : code_transition (js "Pending") (js "In Progress")
  | mark_resolved_early : code_transition (js "Pending") (js "Resolved")
  | mark_resolved : code_transition (js "In Progress") (js "Resolved")
  | reopen : code_transition (js "Resolved") (js "Pending").



(** ** Views *)

Definition getStatusClass (status : jsstring) : jsstring :=
  if bool_decide (status = js "Resolved") then js "bg-green-100 text-green-800"
  else if bool_decide (status = js "In Progress") then js "bg-yellow-100 text-yellow-800"
  else js "bg-red-100 text-red-800".

(** [elems.filter(p)] on the array as [getReports] returns it; the
    callback reads a property and so can throw on a [null] element. *)
Fixpoint Array_filter (p : value -> JS bool) (elems : list value) : JS (list value) :=
  match elems with
  | [] => mret []
  | r :: elems' =>
      b ← p r;
      kept ← Array_filter p elems';
      mret (if b : bool then r :: kept else kept)
  end.

(** [r => r.status === s]. *)
Definition has_status (s : jsstring) (r : value) : JS bool :=
  x ← member r (js "status"); mret (is_string x s).

(** On a collection of reports the views are written over the records:
    each property read of a report object yields the record's field
    ([Array_filter_reports] relates the two levels).

    [reports.filter(r => r.status === status)]. *)
Definition filterByStatus (reports : list Report) (s : jsstring) : list Report :=
  List.filter (fun r => bool_decide (status r = s)) reports.

(** [reports.filter(r => r.category === category)]. *)
Definition filterByCategory (reports : list Report) (c : jsstring) : list Report :=
  List.filter (fun r => bool_decide (category r = c)) reports.

(** The selection at the head of [renderComplaintList]. *)
Definition filteredReports (currentFilter : jsstring) (allReports : list Report)
  : list Report :=
  if bool_decide (currentFilter = js "All Reports") then allReports
  else if bool_decide (currentFilter ∈ [js "Pending"; js "In Progress"; js "Resolved"])
       then filterByStatus allReports currentFilter
  else filterByCategory allReports currentFilter.

Section Sorting.
(** The time value of [new Date(s)], [None] for an invalid date.  Which
    strings besides the ISO format denote a date is up to the engine. *)
Variable Date_parse : jsstring -> option Z.

(** [(a, b) => new Date(b.submittedAt) - new Date(a.submittedAt)];
    [None] is NaN.  Time values are integers, so the difference of two
    of them is exact. *)
Definition compareFn (a b : Report) : option Z :=
  match Date_parse (submittedAt b), Date_parse (submittedAt a) with
  | Some tb, Some ta => Some (tb - ta)%Z
  | _, _ => None
  end.

(** SortCompare: a NaN from the comparator counts as +0; [x] may stay
    in front of [y] unless the comparator puts it after. *)
Definition stays_before (x y : Report) : bool :=
  match compareFn x y with
  | Some v => (v <=? 0)%Z
  | None => true
  end.

(** [Array.prototype.sort(compareFn)].  ECMA-262 requires the sort to be
    stable and leaves the algorithm open; with a consistent comparator
    every stable algorithm gives the same result, and the model uses
    insertion (each element is inserted in front of the elements that
    followed it).  The comparator of the program is consistent when
    every date is valid, and when the compared reports all have the same
    time or none.  With an invalid date among valid ones of different
    times it is not, ECMA-262 then leaves the order to the
    implementation, and the model gives the order of one conforming
    implementation only: what is stated about the order is stated for
    valid dates. *)
Fixpoint sort_insert (x : Report) (sorted : list Report) : list Report :=
  match sorted with
  | [] => [x]
  | y :: rest =>
      if stays_before x y then x :: y :: rest else y :: sort_insert x rest
  end.

Fixpoint Array_sort (reports : list Report) : list Report :=
  match reports with
  | [] => []
  | x :: rest => sort_insert x (Array_sort rest)
  end.

Definition sortNewestFirst (reports : list Report) : list Report :=
  Array_sort reports.

Definition time_of (r : Report) : option Z := Date_parse (submittedAt r).

(** [a] was submitted at or after [b]; both dates are valid. *)
Definition not_older (a b : Report) : Prop :=
  match time_of a, time_of b with
  | Some ta, Some tb => (tb <= ta)%Z
  | _, _ => False
  end.
End Sorting.

(** *** The time value of a string [toISOString] wrote

    [iso_time] reads the one format [Date.prototype.toISOString] writes
    (years 0000 to 9999, a real calendar date, hours 00 to 23) and gives
    the time value ECMA-262 assigns to it.  It stands in for
    [Date_parse] in the examples, which use only such strings and
    strings no engine reads as a date; what engines make of other
    spellings of a date is not modelled. *)

Definition digits_at (from len : nat) (s : jsstring) : option Z :=
  Z.of_N <$> digits_value 0 (take len (drop from s)).

Definition days_from_civil (y m d : Z) : Z :=
  let y' := (if m <=? 2 then y - 1 else y)%Z in
  let era := (y' / 400)%Z in
  let yoe := (y' - era * 400)%Z in
  let doy := ((153 * (if m >? 2 then m - 3 else m + 9) + 2) / 5 + d - 1)%Z in
  let doe := (yoe * 365 + yoe / 4 - yoe / 100 + doy)%Z in
  (era * 146097 + doe - 719468)%Z.

Definition is_leap_year (y : Z) : bool :=
  ((y mod 4 =? 0) && negb (y mod 100 =? 0) || (y mod 400 =? 0))%Z.

Definition days_in_month (y m : Z) : Z :=
  if (m =? 2)%Z then (if is_leap_year y then 29 else 28)%Z
  else if ((m =? 4) || (m =? 6) || (m =? 9) || (m =? 11))%Z then 30%Z
  else 31%Z.

Definition iso_time (s : jsstring) : option Z :=
  if bool_decide (length s = 24%nat
                  /\ s !! 4%nat = Some 45%N /\ s !! 7%nat = Some 45%N
                  /\ s !! 10%nat = Some (ch "T") /\ s !! 13%nat = Some 58%N
                  /\ s !! 16%nat = Some 58%N /\ s !! 19%nat = Some 46%N
                  /\ s !! 23%nat = Some (ch "Z")) then
    y ← digits_at 0 4 s; mo ← digits_at 5 2 s; d ← digits_at 8 2 s;
    h ← digits_at 11 2 s; mi ← digits_at 14 2 s; sec ← digits_at 17 2 s;
    ms ← digits_at 20 3 s;
    if bool_decide (1 <= mo <= 12 /\ 1 <= d <= days_in_month y mo
                    /\ h <= 23 /\ mi <= 59 /\ sec <= 59)%Z
    then Some ((((days_from_civil y mo d * 24 + h) * 60 + mi) * 60 + sec) * 1000 + ms)%Z
    else None
  else None.

(** ** Predicates used in the statements *)

Definition key_ok (k : jsstring) : bool :=
  match array_index k with Some _ => false | None => true end.

(** The values for which writing and reading back is the identity in the
    model and in the engine alike: no Number, and objects whose keys are
    distinct and are not array indices. *)
Fixpoint plain (v : value) : bool :=
  match v with
  | VNull | VBool _ | VStr _ => true
  | VNum _ => false
  | VArr elems => forallb plain elems
  | VObj props =>
      forallb (fun kv => key_ok (fst kv) && plain (snd kv)) props
      && bool_decide (NoDup (fst <$> props))
  end.

(** What a plain value's text starts with. *)
Definition opener (c : N) : Prop :=
  c = ch "n" \/ c = ch "t" \/ c = ch "f" \/ c = 34%N \/ c = 91%N \/ c = 123%N.

Definition reads_back (v : value) : Prop :=
  forall fuel rest,
    length (stringify v) <= fuel ->
    parse_value fuel (stringify v ++ rest) = Parsed v rest.

Definition member_of (kv : jsstring * value) : jsstring :=
  quote (fst kv) ++ 58%N :: stringify (snd kv).

(** The state in which the slot holds the text of [v]. *)
Definition persist (v : value) (w : world) : world :=
  World (<[STORAGE_KEY := JSON_stringify v]> (localStorage w)) (console w) (page w)
        (browser w).

(** The storage area has room for the text of [v] in the slot. *)
Definition fits (v : value) (w : world) : bool :=
  (storage_size (<[STORAGE_KEY := JSON_stringify v]> (localStorage w))
   <=? quota (browser w))%N.

Definition persisted (v : value) (w : world) : Prop :=
  localStorage w !! STORAGE_KEY = Some (JSON_stringify v).


(** The state after [getReports] caught [e]: one more console entry. *)
Definition logged (e : exn) (w : world) : world :=
  World (localStorage w)
        (console w ++ [(js "Error parsing reports from localStorage", e)])
        (page w) (browser w).


(** ** Sample data *)

Definition blank_form : form :=
  Form [] [] [] [] false (js "Submit Report") [] [] true.

(** An engine for the examples: room for 5 MiB of code units, and
    messages in the style of Chromium's. *)
Definition sample_wording (e : exn) : jsstring :=
  match e with
  | TypeError (NotAFunction callee) => callee ++ js " is not a function"
  | TypeError (ReadOfNull k) =>
      js "Cannot read properties of null (reading '" ++ k ++ js "')"
  | TypeError (WriteOfNull k) =>
      js "Cannot set properties of null (setting '" ++ k ++ js "')"
  | TypeError (WriteOfUndefined k) =>
      js "Cannot set properties of undefined (setting '" ++ k ++ js "')"
  | QuotaExceededError =>
      js "Failed to execute 'setItem' on 'Storage': Setting the value of 'fixYourCityReports' exceeded the quota."
  | SyntaxError => js "Unexpected end of JSON input"
  | Error message => message
  | ProgressEvent => js "undefined"
  end.

Definition sample_engine : engine := Engine 5242880 sample_wording.

Definition fresh_world : world := World ∅ [] blank_form sample_engine.

Definition pothole : Report :=
  mkReport (js "report_1700000000000_k3j9x2a") (js "Pothole") (js "Main St") []
           (js "data:image/png;base64,iVBORw0KGgo=") (js "Pending")
           (js "2023-11-14T22:13:20.000Z").

Definition streetlight : Report :=
  mkReport (js "report_1700000050000_0zq81mc") (js "Streetlight") (js "2nd Ave")
           (js "Lamp is out") (js "data:image/png;base64,AAAA") (js "Resolved")
           (js "2023-11-14T22:14:10.000Z").

Definition garbage : Report :=
  mkReport (js "report_1700000090000_p0o9i8u") (js "Garbage") (js "Park Rd")
           (js "Overflowing bin") (js "data:image/jpeg;base64,/9j/4A==")
           (js "In Progress") (js "2023-11-14T22:14:50.000Z").

(** A report in the store whose submittedAt is not a date. *)
Definition undated : Report :=
  mkReport (js "report_1700000300000_q1w2e3r") (js "Other") (js "Mill Lane")
           (js "Fallen tree") (js "data:image/png;base64,AAAA") (js "Pending")
           (js "not recorded").

(** A report whose photo does not fit the sample engine's storage area. *)
Definition oversized_photo : jsstring :=
  js "data:image/png;base64," ++ replicate (N.to_nat 5300000) (ch "A").

Definition oversized : Report :=
  mkReport (js "report_1700000100000_a1b2c3d") (js "Pothole") (js "Main St") []
           oversized_photo (js "Pending") (js "2023-11-14T22:15:00.000Z").

(** A report that, alone in the collection, fills the sample engine's
    storage area to the last code unit. *)
Definition brimful_photo : jsstring :=
  js "data:image/png;base64," ++ replicate (N.to_nat 5242667) (ch "A").

Definition brimful : Report :=
  mkReport (js "report_1700000200000_z9y8x7w") (js "Pothole") (js "Main St") []
           brimful_photo (js "Pending") (js "2023-11-14T22:16:40.000Z").

(** Code units [JSON.stringify] writes as they are. *)
Definition no_escape (c : N) : bool :=
  negb (is_high_surrogate c) && bool_decide (quote_unit c = [c]).

(** The callback of [findIndex] in [updateReportStatus]. *)
Definition has_id (reportId : jsstring) (r : value) : JS bool :=
  id ← member r (js "id"); mret (is_string id reportId).

(** ** Further parts of the pages *)

(** The statuses the program itself writes. *)
Definition known_status (s : jsstring) : Prop :=
  s = js "Pending" \/ s = js "In Progress" \/ s = js "Resolved".


(** The three numbers [updateStatistics] writes on the dashboard. *)
Record statistics : Type := Statistics {
  stat_total : nat;
  stat_pending : nat;
  stat_resolved : nat;
}.

Definition updateStatistics (allReports : list Report) : statistics :=
  Statistics (length allReports)
             (length (filterByStatus allReports (js "Pending")))
             (length (filterByStatus allReports (js "Resolved"))).

(** The variables [initAuthorityDashboard] closes over. *)
Record dashboard : Type := Dashboard {
  allReports : list Report;
  currentFilter : jsstring;
}.

(** [description.length > 100 ? description.substring(0, 100) + '...' :
    description] of [createReportCard], followed by
    [description || 'No description provided.']. *)
Definition card_description (description : jsstring) : jsstring :=
  let shown :=
    if Nat.ltb 100 (length description)
    then substring 0 100 description ++ js "..."
    else description in
  match shown with
  | [] => js "No description provided."
  | _ :: _ => shown
  end.

Section Lists.
Variable Date_parse : jsstring -> option Z.

(** [renderComplaintList]: the cards it draws, and the dashboard's
    variables afterwards.  Under "All Reports" [filteredReports] is the
    array [allReports] itself, and [sort] reorders it in place; [filter]
    makes a new array. *)
Definition renderComplaintList (d : dashboard) : list Report * dashboard :=
  if bool_decide (currentFilter d = js "All Reports") then
    let sorted := Array_sort Date_parse (allReports d) in
    (sorted, Dashboard sorted (currentFilter d))
  else
    (Array_sort Date_parse (filteredReports (currentFilter d) (allReports d)), d).

(** The three lists of [initExplorePage]: pending, in progress, resolved. *)
Definition initExplorePage (reports : list Report)
  : list Report * list Report * list Report :=
  (Array_sort Date_parse (filterByStatus reports (js "Pending")),
   Array_sort Date_parse (filterByStatus reports (js "In Progress")),
   Array_sort Date_parse (filterByStatus reports (js "Resolved"))).
End Lists.

(** An element that [findIndex] in [updateReportStatus] passes over: its
    [id] can be read and is not the string looked for. *)
Definition passed_over (reportId : jsstring) (r : value) : Prop :=
  forall w, has_id reportId r w = (Ok false, w).
(** * Proofs *)

(** ** Hexadecimal escapes *)

Lemma hex_value_digit (d : N) : (d < 16)%N -> hex_value (hex_digit d) = Some d.
Proof.
  intros Hd. destruct d as [|p]; [reflexivity|].
  do 4 (destruct p as [p|p|]; try reflexivity); lia.
Qed.

Lemma unhex4_hex4 (c : N) :
  (c < 65536)%N ->
  match hex4 c with
  | [h1; h2; h3; h4] => unhex4 h1 h2 h3 h4 = Some c
  | _ => False
  end.
Proof.
  intros Hc. unfold hex4, unhex4.
  rewrite !hex_value_digit by (apply N.mod_lt; lia).
  f_equal.
  assert (H1 := N.div_mod' c 16).
  assert (H2 := N.div_mod' (c / 16) 16).
  assert (H3 := N.div_mod' (c / 16 / 16) 16).
  assert (H4 : (c / 16 / 16 / 16 < 16)%N).
  { rewrite !N.Div0.div_div. apply N.Div0.div_lt_upper_bound. simpl. lia. }
  rewrite (N.mod_small _ 16) by (replace 4096%N with (16 * 16 * 16)%N by reflexivity;
    rewrite <- !N.Div0.div_div; exact H4).
  replace (c / 4096)%N with (c / 16 / 16 / 16)%N
    by (rewrite !N.Div0.div_div; reflexivity).
  replace (c / 256)%N with (c / 16 / 16)%N
    by (rewrite !N.Div0.div_div; reflexivity).
  assert (H5 := N.div_mod' (c / 16 / 16 / 16) 16).
  rewrite (N.mod_small _ 16 H4) in H5.
  lia.
Qed.

(** ** String literals: [parse_chars] reads back what [quote_body] writes *)

Lemma parse_chars_plain (c : N) (X : jsstring) :
  c ≠ 34%N -> c ≠ 92%N -> (32 <= c)%N ->
  parse_chars (c :: X) = push_unit c (parse_chars X).
Proof.
  intros H1 H2 H3. cbn [parse_chars].
  destruct (N.eqb_spec c 34); [done|].
  destruct (N.eqb_spec c 92); [done|].
  destruct (N.ltb_spec c 32); [lia|done].
Qed.

Lemma parse_chars_simple (e u : N) (X : jsstring) :
  simple_escape e = Some u ->
  parse_chars (92%N :: e :: X) = push_unit u (parse_chars X).
Proof.
  intros He. cbn [parse_chars].
  change (92 =? 34)%N with false. change (92 =? 92)%N with true. cbv iota.
  destruct (N.eqb_spec e (ch "u")) as [->|_]; [discriminate He|].
  by rewrite He.
Qed.

Lemma parse_chars_unicode (c : N) (X : jsstring) :
  (c < 65536)%N ->
  parse_chars (unicode_escape c ++ X) = push_unit c (parse_chars X).
Proof.
  intros Hc. assert (H := unhex4_hex4 c Hc).
  unfold unicode_escape. destruct (hex4 c) as [|h1 [|h2 [|h3 [|h4 [|]]]]]; try done.
  cbn [app parse_chars].
  change (ch "\" =? 34)%N with false. change (ch "\" =? 92)%N with true.
  change (ch "u" =? ch "u")%N with true. cbv iota.
  by rewrite H.
Qed.

Lemma parse_chars_quote_unit (c : N) (X : jsstring) :
  parse_chars (quote_unit c ++ X) = push_unit c (parse_chars X).
Proof.
  unfold quote_unit.
  destruct (N.eqb_spec c 34) as [->|?]; [by apply parse_chars_simple|].
  destruct (N.eqb_spec c 92) as [->|?]; [by apply parse_chars_simple|].
  destruct (N.eqb_spec c 8) as [->|?]; [by apply parse_chars_simple|].
  destruct (N.eqb_spec c 12) as [->|?]; [by apply parse_chars_simple|].
  destruct (N.eqb_spec c 10) as [->|?]; [by apply parse_chars_simple|].
  destruct (N.eqb_spec c 13) as [->|?]; [by apply parse_chars_simple|].
  destruct (N.eqb_spec c 9) as [->|?]; [by apply parse_chars_simple|].
  destruct (N.ltb_spec c 32) as [Hlt|Hge]; cbn [orb].
  { apply parse_chars_unicode. lia. }
  destruct (is_high_surrogate c) eqn:Hh; cbn [orb].
  { apply parse_chars_unicode. unfold is_high_surrogate in Hh.
    apply andb_prop in Hh as [_ Hh]. apply N.leb_le in Hh. lia. }
  destruct (is_low_surrogate c) eqn:Hl.
  { apply parse_chars_unicode. unfold is_low_surrogate in Hl.
    apply andb_prop in Hl as [_ Hl]. apply N.leb_le in Hl. lia. }
  by apply parse_chars_plain.
Qed.

Lemma surrogate_plain (c : N) :
  is_high_surrogate c || is_low_surrogate c = true ->
  c ≠ 34%N /\ c ≠ 92%N /\ (32 <= c)%N /\ (c < 65536)%N.
Proof.
  unfold is_high_surrogate, is_low_surrogate. intros H.
  apply orb_prop in H as [H|H]; apply andb_prop in H as [H1 H2];
    apply N.leb_le in H1, H2; lia.
Qed.

Lemma parse_chars_quote_body (s rest : jsstring) :
  parse_chars (quote_body s ++ 34%N :: rest) = Some (s, rest).
Proof.
  remember (length s) as n eqn:Hn.
  revert s Hn. induction (lt_wf n) as [n _ IH]. intros s ->.
  destruct s as [|c s']; [reflexivity|].
  cbn [quote_body].
  destruct (is_high_surrogate c) eqn:Hh.
  - destruct (surrogate_plain c) as (H1 & H2 & H3 & H4); [by rewrite Hh|].
    destruct s' as [|d s''].
    + rewrite parse_chars_unicode by done. reflexivity.
    + destruct (is_low_surrogate d) eqn:Hl.
      * destruct (surrogate_plain d) as (G1 & G2 & G3 & G4);
          [by rewrite Hl, orb_true_r|].
        cbn [app]. rewrite !parse_chars_plain by done.
        by rewrite (IH (length s'') ltac:(cbn; lia) s'' eq_refl).
      * rewrite <- app_assoc, parse_chars_unicode by done.
        by rewrite (IH (length (d :: s'')) ltac:(cbn; lia) (d :: s'') eq_refl).
  - rewrite <- app_assoc, parse_chars_quote_unit.
    by rewrite (IH (length s') ltac:(cbn; lia) s' eq_refl).
Qed.

(** ** Values: [parse_value] reads back what [stringify] writes *)

Lemma value_ind_nested (P : value -> Prop) :
  P VNull -> (forall b, P (VBool b)) -> (forall n, P (VNum n)) ->
  (forall s, P (VStr s)) ->
  (forall elems, Forall P elems -> P (VArr elems)) ->
  (forall props, Forall (fun kv => P (snd kv)) props -> P (VObj props)) ->
  forall v, P v.
Proof.
  intros Hnull Hbool Hnum Hstr Harr Hobj. fix IH 1.
  intros [ | b | n | s | elems | props].
  - exact Hnull.
  - apply Hbool.
  - apply Hnum.
  - apply Hstr.
  - apply Harr. induction elems as [|e elems IHe]; constructor.
    + apply IH.
    + exact IHe.
  - apply Hobj. induction props as [|[k v] props IHp]; constructor.
    + apply IH.
    + exact IHp.
Qed.

Lemma skip_ws_cons (c : N) (X : jsstring) :
  is_ws c = false -> skip_ws (c :: X) = c :: X.
Proof. intros H. cbn [skip_ws]. by rewrite H. Qed.

Lemma parse_value_string (f : nat) (X : jsstring) :
  parse_value (S f) (34%N :: X) =
  match parse_chars X with
  | Some (body, rest) => Parsed (VStr body) rest
  | None => Malformed
  end.
Proof. reflexivity. Qed.

Lemma parse_value_array (f : nat) (X : jsstring) :
  parse_value (S f) (91%N :: X) =
  match skip_ws X with
  | d :: s'' =>
      if (d =? 93)%N then Parsed (VArr []) s''
      else match parse_elements f X with
           | Parsed vs rest => Parsed (VArr vs) rest
           | Malformed => Malformed
           | NoFuel => NoFuel
           end
  | [] => Malformed
  end.
Proof. reflexivity. Qed.

Lemma parse_value_object (f : nat) (X : jsstring) :
  parse_value (S f) (123%N :: X) =
  match skip_ws X with
  | d :: s'' =>
      if (d =? 125)%N then Parsed (VObj []) s''
      else match parse_members f X with
           | Parsed ms rest => Parsed (build_object ms) rest
           | Malformed => Malformed
           | NoFuel => NoFuel
           end
  | [] => Malformed
  end.
Proof. reflexivity. Qed.

Lemma parse_elements_step (f : nat) (s : jsstring) :
  parse_elements (S f) s =
  match parse_value f s with
  | Parsed v rest =>
      match skip_ws rest with
      | c :: rest' =>
          if (c =? 44)%N then
            match parse_elements f rest' with
            | Parsed vs rest'' => Parsed (v :: vs) rest''
            | Malformed => Malformed
            | NoFuel => NoFuel
            end
          else if (c =? 93)%N then Parsed [v] rest'
          else Malformed
      | [] => Malformed
      end
  | Malformed => Malformed
  | NoFuel => NoFuel
  end.
Proof. reflexivity. Qed.

Lemma parse_members_step (f : nat) (X : jsstring) :
  parse_members (S f) (34%N :: X) =
  match parse_chars X with
  | Some (k, s2) =>
      match skip_ws s2 with
      | c :: s3 =>
          if (c =? 58)%N then
            match parse_value f s3 with
            | Parsed v rest =>
                match skip_ws rest with
                | d :: rest' =>
                    if (d =? 44)%N then
                      match parse_members f rest' with
                      | Parsed ms rest'' => Parsed ((k, v) :: ms) rest''
                      | Malformed => Malformed
                      | NoFuel => NoFuel
                      end
                    else if (d =? 125)%N then Parsed [(k, v)] rest'
                    else Malformed
                | [] => Malformed
                end
            | Malformed => Malformed
            | NoFuel => NoFuel
            end
          else Malformed
      | [] => Malformed
      end
  | None => Malformed
  end.
Proof. reflexivity. Qed.

Lemma stringify_opener (v : value) :
  plain v = true -> exists c t, stringify v = c :: t /\ opener c.
Proof.
  unfold opener. destruct v as [ | [|] | n | s | elems | props]; intros Hv;
    try discriminate Hv; cbn [stringify]; eexists _, _; (split; [reflexivity|]);
    cbn; tauto.
Qed.

Lemma opener_not_ws (c : N) : opener c -> is_ws c = false.
Proof. unfold opener. intros [->|[->|[->|[->|[->| ->]]]]]; reflexivity. Qed.

Lemma opener_not_closer (c s : N) :
  opener c -> s = 93%N \/ s = 125%N -> (c =? s)%N = false.
Proof.
  unfold opener.
  intros [->|[->|[->|[->|[->| ->]]]]] [-> | ->]; reflexivity.
Qed.

Lemma stringify_length_pos (v : value) :
  plain v = true -> 0 < length (stringify v).
Proof.
  intros Hv. destruct (stringify_opener v Hv) as (c & t & -> & _). cbn. lia.
Qed.

Lemma set_prop_fresh (k : jsstring) (v : value) (ps : list (jsstring * value)) :
  k ∉ (fst <$> ps) -> set_prop k v ps = ps ++ [(k, v)].
Proof.
  induction ps as [|[k' v'] ps IH]; intros Hk; [reflexivity|].
  cbn [set_prop]. rewrite fmap_cons, not_elem_of_cons in Hk. destruct Hk as [Hne Hk].
  rewrite bool_decide_eq_false_2 by (cbn in Hne; congruence).
  cbn [app]. by rewrite IH.
Qed.

Lemma foldl_set_prop (acc ms : list (jsstring * value)) :
  NoDup ((fst <$> acc) ++ (fst <$> ms)) ->
  foldl (fun ps kv => set_prop (fst kv) (snd kv) ps) acc ms = acc ++ ms.
Proof.
  revert acc. induction ms as [|[k v] ms IH]; intros acc Hnd.
  - by rewrite app_nil_r.
  - cbn [foldl fst snd]. rewrite fmap_cons in Hnd. cbn [fst] in Hnd.
    rewrite set_prop_fresh.
    + rewrite IH; [by rewrite <- app_assoc|].
      rewrite fmap_app, <- app_assoc. exact Hnd.
    + apply NoDup_app in Hnd as (_ & Hdis & _). intros Hin.
      apply (Hdis k Hin). left.
Qed.

Lemma build_object_distinct (ms : list (jsstring * value)) :
  NoDup (fst <$> ms) -> build_object ms = VObj ms.
Proof. intros H. unfold build_object. by rewrite (foldl_set_prop [] ms). Qed.

Lemma own_props_named {A} (ps : list (jsstring * A)) :
  forallb (fun kv => key_ok (fst kv)) ps = true -> own_props ps = ps.
Proof.
  intros H.
  assert (Hboth : index_props ps = [] /\ named_props ps = ps).
  { induction ps as [|[k x] ps IH]; [done|].
    cbn [forallb fst] in H. apply andb_prop in H as [Hk Hps].
    unfold key_ok in Hk. cbn [index_props named_props].
    destruct (array_index k); [discriminate|].
    destruct (IH Hps) as [-> ->]. done. }
  unfold own_props. destruct Hboth as [-> ->]. reflexivity.
Qed.

Lemma join_comma_cons (x y : jsstring) (ys : list jsstring) :
  join_comma (x :: y :: ys) = x ++ 44%N :: join_comma (y :: ys).
Proof. reflexivity. Qed.

Lemma parse_elements_join (l : list value) :
  l ≠ [] ->
  Forall (fun v => plain v = true /\ reads_back v) l ->
  forall fuel rest,
    length (join_comma (stringify <$> l)) < fuel ->
    parse_elements fuel (join_comma (stringify <$> l) ++ 93%N :: rest)
    = Parsed l rest.
Proof.
  induction l as [|e l IH]; [done|]. intros _ Hall fuel rest Hfuel.
  apply Forall_cons in Hall as [[He Hrb] Hall].
  destruct fuel as [|f]; [lia|]. rewrite parse_elements_step.
  destruct l as [|e' l'].
  - cbn [fmap list_fmap join_comma] in Hfuel |- *. rewrite Hrb by lia. reflexivity.
  - rewrite !fmap_cons, join_comma_cons in Hfuel |- *.
    rewrite <- fmap_cons in Hfuel |- *.
    rewrite length_app in Hfuel. cbn [length] in Hfuel.
    rewrite <- app_assoc. cbn [app]. rewrite Hrb by lia.
    rewrite skip_ws_cons by reflexivity. change (44 =? 44)%N with true. cbv iota.
    rewrite IH; [done|done|done|lia].
Qed.

Lemma parse_members_join (ps : list (jsstring * value)) :
  ps ≠ [] ->
  Forall (fun kv => plain (snd kv) = true /\ reads_back (snd kv)) ps ->
  forall fuel rest,
    length (join_comma (member_of <$> ps)) < fuel ->
    parse_members fuel (join_comma (member_of <$> ps) ++ 125%N :: rest)
    = Parsed ps rest.
Proof.
  induction ps as [|[k v] ps IH]; [done|]. intros _ Hall fuel rest Hfuel.
  apply Forall_cons in Hall as [[Hv Hrb] Hall]. cbn [snd] in Hv, Hrb.
  destruct fuel as [|f]; [lia|].
  destruct ps as [|kv' ps'].
  - cbn [fmap list_fmap join_comma] in Hfuel |- *.
    unfold member_of, quote in Hfuel |- *. cbn [fst snd app] in Hfuel |- *.
    cbn [length] in Hfuel. rewrite !length_app in Hfuel. cbn [length] in Hfuel.
    rewrite parse_members_step.
    rewrite <- ?app_assoc. cbn [app]. rewrite <- ?app_assoc. cbn [app].
    rewrite parse_chars_quote_body.
    rewrite skip_ws_cons by reflexivity. change (58 =? 58)%N with true. cbv iota.
    rewrite Hrb by lia. reflexivity.
  - rewrite !fmap_cons, join_comma_cons in Hfuel |- *.
    rewrite <- fmap_cons in Hfuel |- *.
    unfold member_of at 1 in Hfuel. unfold member_of at 1.
    unfold quote in Hfuel |- *. cbn [fst snd app] in Hfuel |- *.
    cbn [length] in Hfuel. rewrite !length_app in Hfuel. cbn [length] in Hfuel.
    rewrite parse_members_step.
    rewrite <- ?app_assoc. cbn [app]. rewrite <- ?app_assoc. cbn [app].
    rewrite parse_chars_quote_body.
    rewrite skip_ws_cons by reflexivity. change (58 =? 58)%N with true. cbv iota.
    rewrite Hrb by lia.
    rewrite skip_ws_cons by reflexivity. change (44 =? 44)%N with true. cbv iota.
    rewrite IH; [done|done|done|lia].
Qed.

Lemma join_comma_opener (x : jsstring) (xs : list jsstring) (c : N) (t : jsstring) :
  x = c :: t -> exists t', join_comma (x :: xs) = c :: t'.
Proof. intros ->. destruct xs; [by eexists|]. rewrite join_comma_cons. by eexists. Qed.

Lemma parse_value_stringify (v : value) : plain v = true -> reads_back v.
Proof.
  induction v as [ | b | n | s | elems IH | props IH] using value_ind_nested;
    intros Hv fuel rest Hfuel; try discriminate Hv.
  - destruct fuel as [|f]; [cbn in Hfuel; lia|]. reflexivity.
  - destruct fuel as [|f]; [destruct b; cbn in Hfuel; lia|]. by destruct b.
  - destruct fuel as [|f]; [cbn in Hfuel; lia|].
    cbn [stringify]. unfold quote. cbn [app]. rewrite parse_value_string.
    rewrite <- app_assoc. cbn [app]. by rewrite parse_chars_quote_body.
  - cbn [plain] in Hv. rewrite forallb_forall in Hv.
    assert (Hall : Forall (fun v => plain v = true /\ reads_back v) elems).
    { rewrite Forall_forall in IH |- *. intros x Hx. split.
      - apply Hv. by apply list_elem_of_In.
      - apply IH; [done|]. apply Hv. by apply list_elem_of_In. }
    cbn [stringify] in Hfuel |- *. cbn [length] in Hfuel. rewrite length_app in Hfuel.
    cbn [length] in Hfuel.
    destruct fuel as [|f]; [lia|]. cbn [app]. rewrite parse_value_array.
    rewrite <- app_assoc. cbn [app].
    destruct elems as [|e l]; [reflexivity|].
    destruct (stringify_opener e) as (c & t & Hc & Hop).
    { apply Forall_cons in Hall as [[He _] _]. exact He. }
    rewrite fmap_cons in Hfuel |- *.
    destruct (join_comma_opener _ (stringify <$> l) c t Hc) as [t' Ht'].
    rewrite <- fmap_cons in Hfuel |- *.
    rewrite parse_elements_join; [|done|done|lia].
    rewrite fmap_cons, Ht'. cbn [app].
    rewrite skip_ws_cons by (by apply opener_not_ws).
    rewrite opener_not_closer by (done || by left). reflexivity.
  - cbn [plain] in Hv. apply andb_prop in Hv as [Hv Hnd].
    apply bool_decide_eq_true_1 in Hnd. rewrite forallb_forall in Hv.
    assert (Hall : Forall (fun kv => plain (snd kv) = true /\ reads_back (snd kv)) props).
    { rewrite Forall_forall in IH |- *. intros x Hx.
      assert (Hx' := Hv x (proj1 (list_elem_of_In _ _) Hx)).
      apply andb_prop in Hx' as [_ Hx']. split; [done|]. by apply IH. }
    assert (Hown : own_props ((fun kv => (fst kv, stringify (snd kv))) <$> props)
                   = (fun kv => (fst kv, stringify (snd kv))) <$> props).
    { apply own_props_named. rewrite forallb_forall. intros x Hx.
      apply list_elem_of_In in Hx. apply list_elem_of_fmap in Hx as (y & -> & Hy).
      cbn [fst]. assert (Hy' := Hv y (proj1 (list_elem_of_In _ _) Hy)).
      by apply andb_prop in Hy' as [Hy' _]. }
    cbn [stringify] in Hfuel |- *. rewrite Hown in Hfuel |- *.
    rewrite <- list_fmap_compose in Hfuel |- *.
    change (member_text ∘ (fun kv : jsstring * value => (fst kv, stringify (snd kv))))
      with member_of in Hfuel |- *.
    cbn [length] in Hfuel. rewrite length_app in Hfuel. cbn [length] in Hfuel.
    destruct fuel as [|f]; [lia|]. cbn [app]. rewrite parse_value_object.
    rewrite <- app_assoc. cbn [app].
    destruct props as [|[k v] l]; [reflexivity|].
    rewrite parse_members_join; [|done|done|lia].
    rewrite build_object_distinct by done.
    rewrite fmap_cons. unfold member_of at 1. unfold quote. cbn [fst].
    destruct (member_of <$> l); reflexivity.
Qed.

(** Writing a plain value and reading the text back gives the value. *)
Lemma JSON_parse_stringify (v : value) :
  plain v = true -> JSON_parse (JSON_stringify v) = Ok v.
Proof.
  intros Hv. unfold JSON_parse, JSON_stringify, parse_fuel.
  rewrite <- (app_nil_r (stringify v)) at 2.
  rewrite parse_value_stringify; [done|done|lia].
Qed.

(** ** The recursion bound of the parser is never reached *)

Lemma skip_ws_length (s : jsstring) : length (skip_ws s) <= length s.
Proof.
  induction s as [|c s IH]; [done|]. cbn [skip_ws].
  destruct (is_ws c); cbn [length]; lia.
Qed.

Lemma parse_chars_length (s body rest : jsstring) :
  parse_chars s = Some (body, rest) -> length rest < length s.
Proof.
  remember (length s) as n eqn:Hn. revert s body rest Hn.
  induction (lt_wf n) as [n _ IH]. intros s body rest -> H.
  assert (Hpush : forall c s', length s' < length s ->
            push_unit c (parse_chars s') = Some (body, rest) -> length rest < length s).
  { intros c s' Hs' Hp. destruct (parse_chars s') as [[b r]|] eqn:Hs; [|done].
    injection Hp as _ <-. specialize (IH _ Hs' s' b r eq_refl Hs). lia. }
  destruct s as [|c s]; [done|]. cbn [parse_chars] in H.
  destruct (c =? 34)%N; [injection H as _ <-; cbn; lia|].
  destruct (c =? 92)%N.
  - destruct s as [|e s]; [done|].
    destruct (e =? ch "u")%N.
    + destruct s as [|h1 [|h2 [|h3 [|h4 s]]]]; try done.
      destruct (unhex4 h1 h2 h3 h4); [|done].
      apply Hpush in H; cbn [length] in *; lia.
    + destruct (simple_escape e); [|done].
      apply Hpush in H; cbn [length] in *; lia.
  - destruct (c <? 32)%N; [done|]. apply Hpush in H; cbn [length] in *; lia.
Qed.

Lemma span_digits_length (s : jsstring) :
  length (snd (span_digits s)) <= length s.
Proof.
  induction s as [|c s IH]; [done|]. cbn [span_digits].
  destruct (is_digit c); [|done]. destruct (span_digits s). cbn in *. lia.
Qed.

Lemma parse_number_length (s numeral rest : jsstring) :
  parse_number s = Some (numeral, rest) -> length rest < length s.
Proof.
  unfold parse_number. intros H.
  assert (Hsign : length (snd (number_sign s)) <= length s).
  { unfold number_sign. destruct s as [|c s]; [done|].
    destruct (c =? ch "-")%N; cbn; lia. }
  destruct (number_sign s) as [sg s1]. cbn [snd] in Hsign.
  destruct (number_int s1) as [[int s2]|] eqn:Hint; [|done]. cbn in H.
  assert (Hint' : length s2 < length s1).
  { unfold number_int in Hint. destruct s1 as [|c s1]; [done|].
    destruct (c =? 48)%N; [injection Hint as _ <-; cbn; lia|].
    destruct (is_digit c); [|done].
    assert (Hsp := span_digits_length s1). destruct (span_digits s1).
    injection Hint as _ <-. cbn in *. lia. }
  destruct (number_frac s2) as [[frac s3]|] eqn:Hfrac; [|done]. cbn in H.
  assert (Hfrac' : length s3 <= length s2).
  { unfold number_frac in Hfrac. destruct s2 as [|c s2]; [by simplify_eq|].
    destruct (c =? ch ".")%N; [|by simplify_eq].
    assert (Hsp := span_digits_length s2). destruct (span_digits s2) as [[|d ds] r];
      [done|]. injection Hfrac as _ <-. cbn in *. lia. }
  destruct (number_exp s3) as [[exp s4]|] eqn:Hexp; [|done]. cbn in H.
  assert (Hexp' : length s4 <= length s3).
  { unfold number_exp in Hexp. destruct s3 as [|c s3]; [by simplify_eq|].
    destruct ((c =? ch "e")%N || (c =? ch "E")%N); [|by simplify_eq].
    assert (Hes : length (snd (exponent_sign s3)) <= length s3).
    { unfold exponent_sign. destruct s3 as [|e s3]; [done|].
      destruct ((e =? ch "-")%N || (e =? ch "+")%N); cbn; lia. }
    destruct (exponent_sign s3) as [sg' s3']. cbn [snd] in Hes.
    assert (Hsp := span_digits_length s3'). destruct (span_digits s3') as [[|d ds] r];
      [done|]. injection Hexp as _ <-. cbn in *. lia. }
  injection H as _ <-. lia.
Qed.

Lemma strip_prefix_length (p s rest : jsstring) :
  strip_prefix p s = Some rest -> length s = length p + length rest.
Proof.
  revert s. induction p as [|a p IH]; intros s H; [cbn in H; by simplify_eq|].
  destruct s as [|b s]; [done|]. cbn [strip_prefix] in H.
  destruct (a =? b)%N; [|done]. apply IH in H. cbn. lia.
Qed.

Lemma strip_prefix_shorter (p s rest : jsstring) :
  p ≠ [] -> strip_prefix p s = Some rest -> length rest < length s.
Proof.
  intros Hp H. apply strip_prefix_length in H. destruct p; [done|]. cbn in H. lia.
Qed.

Ltac length_facts :=
  repeat match goal with
    | H : skip_ws ?s = ?t |- _ =>
        lazymatch goal with
        | _ : length t <= length s |- _ => fail
        | _ => assert (length t <= length s) by (rewrite <- H; apply skip_ws_length)
        end
    | H : parse_chars ?s = Some (_, ?r) |- _ =>
        lazymatch goal with
        | _ : length r < length s |- _ => fail
        | _ => assert (length r < length s) by (eapply parse_chars_length; exact H)
        end
    | H : parse_number ?s = Some (_, ?r) |- _ =>
        lazymatch goal with
        | _ : length r < length s |- _ => fail
        | _ => assert (length r < length s) by (eapply parse_number_length; exact H)
        end
    | H : strip_prefix _ ?s = Some ?r |- _ =>
        lazymatch goal with
        | _ : length r < length s |- _ => fail
        | _ => assert (length r < length s)
                 by (eapply strip_prefix_shorter; [|exact H]; discriminate)
        end
    end.

Lemma parse_consumes (fuel : nat) :
  (forall s v rest, parse_value fuel s = Parsed v rest -> length rest < length s)
  /\ (forall s vs rest, parse_elements fuel s = Parsed vs rest -> length rest < length s)
  /\ (forall s ms rest, parse_members fuel s = Parsed ms rest -> length rest < length s).
Proof.
  induction fuel as [|f (IHv & IHe & IHm)]; [by repeat split|].
  split; [|split]; intros s x rest H.
  - cbn [parse_value] in H.
    repeat case_match; simplify_eq; length_facts;
      repeat match goal with
        | H : parse_elements f _ = Parsed _ _ |- _ => apply IHe in H
        | H : parse_members f _ = Parsed _ _ |- _ => apply IHm in H
        end; cbn [length] in *; lia.
  - cbn [parse_elements] in H.
    repeat case_match; simplify_eq; length_facts;
      repeat match goal with
        | H : parse_value f _ = Parsed _ _ |- _ => apply IHv in H
        | H : parse_elements f _ = Parsed _ _ |- _ => apply IHe in H
        end; cbn [length] in *; lia.
  - cbn [parse_members] in H.
    repeat case_match; simplify_eq; length_facts;
      repeat match goal with
        | H : parse_value f _ = Parsed _ _ |- _ => apply IHv in H
        | H : parse_members f _ = Parsed _ _ |- _ => apply IHm in H
        end; cbn [length] in *; lia.
Qed.

Lemma parse_fuel_enough (fuel : nat) :
  (forall s, 2 * length s + 1 <= fuel -> parse_value fuel s ≠ NoFuel)
  /\ (forall s, 2 * length s + 2 <= fuel -> parse_elements fuel s ≠ NoFuel)
  /\ (forall s, 2 * length s + 2 <= fuel -> parse_members fuel s ≠ NoFuel).
Proof.
  induction fuel as [|f (IHv & IHe & IHm)].
  { repeat split; intros s Hs; lia. }
  split; [|split]; intros s Hs H.
  - cbn [parse_value] in H.
    repeat case_match; simplify_eq; length_facts.
    + eapply IHe; [|eassumption]. cbn [length] in *. lia.
    + eapply IHm; [|eassumption]. cbn [length] in *. lia.
  - cbn [parse_elements] in H.
    repeat case_match; simplify_eq; length_facts.
    + match goal with
      | Hv : parse_value f _ = Parsed _ _ |- _ => apply (proj1 (parse_consumes f)) in Hv
      end.
      eapply IHe; [|eassumption]. cbn [length] in *. lia.
    + eapply IHv; [|eassumption]. lia.
  - cbn [parse_members] in H.
    repeat case_match; simplify_eq; length_facts.
    + match goal with
      | Hv : parse_value f _ = Parsed _ _ |- _ => apply (proj1 (parse_consumes f)) in Hv
      end.
      eapply IHm; [|eassumption]. cbn [length] in *. lia.
    + eapply IHv; [|eassumption]. cbn [length] in *. lia.
Qed.

(** [JSON_parse] throws only when the text is not JSON: with the fuel it
    gives, the parser always finishes. *)
Lemma parse_value_fuel (text : jsstring) :
  parse_value (parse_fuel text) text ≠ NoFuel.
Proof. apply (proj1 (parse_fuel_enough (parse_fuel text))). unfold parse_fuel. lia. Qed.

(** ** Report collections *)

Lemma report_object_plain (r : Report) : plain (report_object r) = true.
Proof. reflexivity. Qed.

Lemma reports_array_plain (R : list Report) : plain (reports_array R) = true.
Proof.
  unfold reports_array. cbn [plain]. induction R as [|r R IH]; [reflexivity|].
  rewrite fmap_cons. cbn [forallb]. by rewrite report_object_plain, IH.
Qed.

Lemma report_object_inj (r r' : Report) : report_object r = report_object r' -> r = r'.
Proof. destruct r, r'. unfold report_object. cbn. intros H. by simplify_eq. Qed.

Lemma reports_array_inj (R R' : list Report) :
  reports_array R = reports_array R' -> R = R'.
Proof.
  unfold reports_array. intros H. injection H as H. revert R' H.
  induction R as [|r R IH]; intros [|r' R'] H; try discriminate H; [done|].
  rewrite !fmap_cons in H.
  f_equal; [apply report_object_inj | apply IH]; congruence.
Qed.

(** ** The quota of the storage area *)

Lemma saveReports_unfold (v : value) (w : world) :
  saveReports v w
  = if fits v w then (Ok tt, persist v w) else (Throw QuotaExceededError, w).
Proof. reflexivity. Qed.

Lemma saveReports_persist (v : value) (w : world) :
  fits v w = true -> saveReports v w = (Ok tt, persist v w).
Proof. intros H. by rewrite saveReports_unfold, H. Qed.

Lemma saveReports_over (v : value) (w : world) :
  fits v w = false -> saveReports v w = (Throw QuotaExceededError, w).
Proof. intros H. by rewrite saveReports_unfold, H. Qed.

Lemma sum_Permutation (l l' : list N) :
  l ≡ₚ l' -> foldr N.add 0%N l = foldr N.add 0%N l'.
Proof. induction 1; cbn; lia. Qed.

Lemma storage_size_insert (k v : jsstring) (area : gmap jsstring jsstring) :
  storage_size (<[k := v]> area)
  = (N.of_nat (length k) + N.of_nat (length v) + storage_size (delete k area))%N.
Proof.
  rewrite <- (insert_delete_eq area). unfold storage_size.
  rewrite (sum_Permutation _ _
             (fmap_Permutation _ _ _
                (map_to_list_insert (delete k area) k v (lookup_delete_eq area k)))).
  rewrite fmap_cons. cbn. lia.
Qed.

Lemma storage_size_slot (k v v' : jsstring) :
  storage_size (<[k := v']> {[k := v]})
  = (N.of_nat (length k) + N.of_nat (length v'))%N.
Proof.
  rewrite storage_size_insert, delete_singleton_eq.
  unfold storage_size. rewrite map_to_list_empty. cbn. lia.
Qed.

Lemma storage_size_first (k v : jsstring) :
  storage_size (<[k := v]> ∅) = (N.of_nat (length k) + N.of_nat (length v))%N.
Proof.
  rewrite storage_size_insert, delete_empty.
  unfold storage_size. rewrite map_to_list_empty. cbn. lia.
Qed.

(** Replace the string literals of the goal by their code units. *)
Ltac eval_literals :=
  repeat match goal with
         | |- context [js ?k] =>
             let t := eval vm_compute in (js k) in change (js k) with t
         end.

(** The text of a report, and its length. *)
Lemma stringify_report (r : Report) :
  stringify (report_object r)
  = js "{" ++ quote (js "id") ++ js ":" ++ quote (id r)
    ++ js "," ++ quote (js "category") ++ js ":" ++ quote (category r)
    ++ js "," ++ quote (js "location") ++ js ":" ++ quote (location r)
    ++ js "," ++ quote (js "description") ++ js ":" ++ quote (description r)
    ++ js "," ++ quote (js "imageData") ++ js ":" ++ quote (imageData r)
    ++ js "," ++ quote (js "status") ++ js ":" ++ quote (status r)
    ++ js "," ++ quote (js "submittedAt") ++ js ":" ++ quote (submittedAt r)
    ++ js "}".
Proof.
  unfold report_object. cbn [stringify fmap list_fmap fst snd].
  rewrite own_props_named by reflexivity.
  cbn [fmap list_fmap join_comma]. unfold member_text, quote. cbn [fst snd].
  eval_literals.
  repeat (rewrite <- app_assoc || rewrite <- app_comm_cons). reflexivity.
Qed.

Lemma length_stringify_report (r : Report) :
  length (stringify (report_object r))
  = (98 + length (quote_body (id r)) + length (quote_body (category r))
     + length (quote_body (location r)) + length (quote_body (description r))
     + length (quote_body (imageData r)) + length (quote_body (status r))
     + length (quote_body (submittedAt r)))%nat.
Proof.
  rewrite stringify_report. unfold quote.
  repeat match goal with
         | |- context [quote_body (js ?k)] =>
             let t := eval vm_compute in (quote_body (js k)) in
             change (quote_body (js k)) with t
         end.
  eval_literals.
  repeat (rewrite length_app || rewrite length_cons). cbn [length]. lia.
Qed.

Lemma length_quote_unit (c : N) : 1 <= length (quote_unit c).
Proof.
  unfold quote_unit, unicode_escape.
  repeat case_match; eval_literals; cbn [length]; lia.
Qed.

Lemma length_quote_body_le (n : nat) (s : jsstring) :
  length s <= n -> length s <= length (quote_body s).
Proof.
  revert s. induction n as [|n IH]; intros [|c s] Hn; cbn [length] in *; try lia.
  cbn [quote_body]. unfold unicode_escape.
  destruct (is_high_surrogate c).
  - destruct s as [|d s]; [cbn [length]; lia|].
    destruct (is_low_surrogate d).
    + cbn [length] in *. specialize (IH s ltac:(lia)). lia.
    + specialize (IH (d :: s) ltac:(lia)).
      cbn [app length] in *. rewrite length_app. lia.
  - specialize (IH s ltac:(lia)). rewrite length_app.
    pose proof (length_quote_unit c). lia.
Qed.

Lemma length_quote_body (s : jsstring) : length s <= length (quote_body s).
Proof. by apply (length_quote_body_le (length s)). Qed.

Lemma quote_body_replicate (n : nat) :
  quote_body (replicate n (ch "A")) = replicate n (ch "A").
Proof.
  induction n as [|n IH]; [reflexivity|]. cbn [replicate].
  change (quote_body (ch "A" :: replicate n (ch "A")))
    with (ch "A" :: quote_body (replicate n (ch "A"))).
  by rewrite IH.
Qed.

Lemma length_join_comma (p : jsstring) (parts : list jsstring) :
  p ∈ parts -> length p <= length (join_comma parts).
Proof.
  induction parts as [|q parts IH]; intros H; [by apply elem_of_nil in H|].
  apply elem_of_cons in H. cbn [join_comma].
  destruct parts as [|q' parts].
  - destruct H as [->|H]; [lia|by apply elem_of_nil in H].
  - rewrite length_app. cbn [length].
    destruct H as [->|H]; [lia|]. specialize (IH H). lia.
Qed.

(** A report whose image alone is longer than the quota cannot be
    written, whatever else the collection and the storage area hold. *)
Lemma fits_too_large (R : list Report) (r : Report) (w : world) :
  r ∈ R ->
  (quota (browser w) < N.of_nat (length (imageData r)))%N ->
  fits (reports_array R) w = false.
Proof.
  intros Hr Hq. unfold fits. apply N.leb_gt. rewrite storage_size_insert.
  assert (length (imageData r) <= length (JSON_stringify (reports_array R))).
  { unfold JSON_stringify, reports_array. cbn [stringify length].
    rewrite length_app.
    pose proof (length_join_comma (stringify (report_object r))
                  (stringify <$> (report_object <$> R))
                  ltac:(by do 2 apply list_elem_of_fmap_2)).
    pose proof (length_stringify_report r).
    pose proof (length_quote_body (imageData r)). lia. }
  lia.
Qed.

Lemma no_escape_quote_body (s : jsstring) :
  forallb no_escape s = true -> quote_body s = s.
Proof.
  induction s as [|c s IH]; [reflexivity|]. cbn [forallb]. intros H.
  apply andb_prop in H as [Hc Hs]. unfold no_escape in Hc.
  apply andb_prop in Hc as [Hhigh Hunit].
  apply negb_true_iff in Hhigh. apply bool_decide_eq_true in Hunit.
  cbn [quote_body]. rewrite Hhigh, Hunit. cbn [app]. by rewrite IH.
Qed.

Lemma forallb_replicate {A} (p : A -> bool) (n : nat) (x : A) :
  p x = true -> forallb p (replicate n x) = true.
Proof. intros H. induction n as [|n IH]; [reflexivity|]. cbn. by rewrite H, IH. Qed.

Lemma persisted_persist (v : value) (w : world) : persisted v (persist v w).
Proof. unfold persisted, persist. cbn. apply lookup_insert_eq. Qed.

Lemma getReports_unfold (w : world) :
  getReports w =
  match JSON_parse (or_else (localStorage w !! STORAGE_KEY) (js "[]")) with
  | Ok v => (Ok v, w)
  | Throw e => (Ok (VArr []), logged e w)
  end.
Proof.
  unfold getReports, try_catch, localStorage_getItem, lift, mbind, JS_bind.
  by destruct (JSON_parse _).
Qed.

Lemma getReports_persisted (v : value) (w : world) :
  plain v = true -> persisted v w -> getReports w = (Ok v, w).
Proof.
  intros Hv Hw. rewrite getReports_unfold, Hw.
  assert (Hne : or_else (Some (JSON_stringify v)) (js "[]") = JSON_stringify v).
  { destruct (stringify_opener v Hv) as (c & t & Hc & _).
    unfold JSON_stringify. by rewrite Hc. }
  by rewrite Hne, (JSON_parse_stringify v Hv).
Qed.

Lemma getReports_returns (w : world) :
  exists v w', getReports w = (Ok v, w') /\ localStorage w' = localStorage w.
Proof. rewrite getReports_unfold. destruct (JSON_parse _); eauto. Qed.

(** ** The store operations *)

(** C1 (as amended).  When the text of a sequence of reports fits the
    quota of the storage area, saving the sequence and loading it again
    returns that sequence, element for element and in the same order,
    whatever the store held before, and the loaded array determines the
    sequence.  When the text does not fit, [saveReports] throws
    [QuotaExceededError] and the state is as it was. *)
Theorem saveReports_getReports_roundtrip (R : list Report) (w : world) :
  if fits (reports_array R) w then
    exists w',
      saveReports (reports_array R) w = (Ok tt, w')
      /\ getReports w' = (Ok (reports_array R), w')
      /\ forall R', fst (getReports w') = Ok (reports_array R') -> R' = R
  else
    saveReports (reports_array R) w = (Throw QuotaExceededError, w).
Proof.
  rewrite saveReports_unfold. destruct (fits (reports_array R) w); [|reflexivity].
  exists (persist (reports_array R) w).
  assert (Hget : getReports (persist (reports_array R) w)
                 = (Ok (reports_array R), persist (reports_array R) w)).
  { apply getReports_persisted; [apply reports_array_plain | apply persisted_persist]. }
  split; [reflexivity|]. split; [exact Hget|].
  intros R' HR'. rewrite Hget in HR'. cbn [fst] in HR'.
  apply reports_array_inj. congruence.
Qed.

Lemma oversized_too_large :
  (quota sample_engine < N.of_nat (length (imageData oversized)))%N.
Proof.
  change (imageData oversized) with oversized_photo. unfold oversized_photo.
  rewrite length_app, length_replicate.
  change (quota sample_engine) with 5242880%N. lia.
Qed.

(** C1, the claim as stated fails: a report whose photo is a data URL of
    more than 5,300,000 code units does not fit an area of 5 MiB code
    units; [saveReports] throws, and [getReports] afterwards returns the
    empty array and not the sequence that was to be saved. *)
Lemma saveReports_over_quota :
  saveReports (reports_array [oversized]) fresh_world
  = (Throw QuotaExceededError, fresh_world)
  /\ getReports (snd (saveReports (reports_array [oversized]) fresh_world))
     = (Ok (reports_array []), fresh_world).
Proof.
  assert (H : saveReports (reports_array [oversized]) fresh_world
              = (Throw QuotaExceededError, fresh_world)).
  { apply saveReports_over, (fits_too_large _ oversized).
    - by apply list_elem_of_singleton.
    - exact oversized_too_large. }
  split; [exact H|]. rewrite H. reflexivity.
Qed.

Example roundtrip_three :
  getReports (snd (saveReports (reports_array [pothole; streetlight; garbage]) fresh_world))
  = (Ok (reports_array [pothole; streetlight; garbage]),
     persist (reports_array [pothole; streetlight; garbage]) fresh_world).
Proof. vm_compute. reflexivity. Qed.



Example getReports_malformed :
  getReports (World {[ STORAGE_KEY := js "[{" ]} [] blank_form sample_engine)
  = (Ok (VArr []),
     logged SyntaxError (World {[ STORAGE_KEY := js "[{" ]} [] blank_form sample_engine)).
Proof. vm_compute. reflexivity. Qed.

Lemma addReport_unfold (r : value) (w : world) :
  addReport r w =
  match getReports w with
  | (Ok reports, w1) =>
      match Array_push reports r w1 with
      | (Ok reports', w2) => saveReports reports' w2
      | (Throw e, w2) => (Throw e, w2)
      end
  | (Throw e, w1) => (Throw e, w1)
  end.
Proof.
  unfold addReport, mbind, JS_bind.
  destruct (getReports w) as [[reports|e] w1]; [|reflexivity].
  by destruct (Array_push reports r w1) as [[reports'|e] w2].
Qed.

Lemma holds_slot (R : list Report) (w : world) :
  holds R w <->
  JSON_parse (or_else (localStorage w !! STORAGE_KEY) (js "[]")) = Ok (reports_array R).
Proof.
  unfold holds. rewrite getReports_unfold.
  destruct (JSON_parse _) as [v|e]; split; intros H; try congruence.
  exfalso. injection H as _ H.
  apply (f_equal (fun x => length (console x))) in H. cbn in H.
  rewrite length_app in H. cbn in H. lia.
Qed.

Lemma holds_same_slot (R : list Report) (w w' : world) :
  localStorage w' !! STORAGE_KEY = localStorage w !! STORAGE_KEY ->
  holds R w -> holds R w'.
Proof. rewrite !holds_slot. by intros ->. Qed.

Lemma holds_persist (R : list Report) (w : world) :
  holds R (persist (reports_array R) w).
Proof.
  apply getReports_persisted; [apply reports_array_plain | apply persisted_persist].
Qed.

Lemma holds_inj (R R' : list Report) (w : world) : holds R w -> holds R' w -> R = R'.
Proof. unfold holds. intros H H'. apply reports_array_inj. congruence. Qed.

Lemma holds_fresh : holds [] fresh_world.
Proof. reflexivity. Qed.

Lemma plain_snoc (elems : list value) (r : value) :
  forallb plain elems = true -> plain r = true -> plain (VArr (elems ++ [r])) = true.
Proof.
  intros He Hr. cbn [plain]. rewrite forallb_app, He. cbn [forallb]. by rewrite Hr.
Qed.

Lemma addReport_value (R : list Report) (r : value) (w : world) :
  holds R w ->
  addReport r w = saveReports (VArr ((report_object <$> R) ++ [r])) w.
Proof. intros Hw. by rewrite addReport_unfold, Hw. Qed.

(** C4 (as amended).  When [getReports] returns a sequence of reports
    (the slot holds one, or is absent, empty or malformed and the
    sequence is empty), [addReport r] does what saving the loaded array
    with [r] added at its end does, and [r] is not inspected ([r] is any
    value without Numbers, its keys distinct and no array indices).
    When the longer array fits the quota, the store afterwards reads as
    the earlier reports, unchanged and in their order, followed by [r];
    when it does not fit, [QuotaExceededError] is thrown and the slot is
    as it was. *)
Theorem addReport_appends (R : list Report) (r : value) (w w1 : world) :
  getReports w = (Ok (reports_array R), w1) -> plain r = true ->
  addReport r w = saveReports (VArr ((report_object <$> R) ++ [r])) w1
  /\ if fits (VArr ((report_object <$> R) ++ [r])) w1 then
       exists w',
         addReport r w = (Ok tt, w')
         /\ getReports w' = (Ok (VArr ((report_object <$> R) ++ [r])), w')
     else
       addReport r w = (Throw QuotaExceededError, w1)
       /\ localStorage w1 = localStorage w.
Proof.
  intros Hw Hr.
  assert (Hrun : addReport r w = saveReports (VArr ((report_object <$> R) ++ [r])) w1).
  { by rewrite addReport_unfold, Hw. }
  split; [exact Hrun|]. rewrite Hrun, saveReports_unfold.
  destruct (fits _ w1).
  - eexists. split; [reflexivity|].
    apply getReports_persisted; [|apply persisted_persist].
    apply plain_snoc; [|exact Hr]. apply (reports_array_plain R).
  - split; [reflexivity|].
    destruct (getReports_returns w) as (v & w' & Hget & Hls). congruence.
Qed.

Lemma addReport_appends_witness :
  holds [pothole] (persist (reports_array [pothole]) fresh_world)
  /\ exists w',
       addReport (report_object garbage) (persist (reports_array [pothole]) fresh_world)
       = (Ok tt, w')
       /\ getReports w' = (Ok (reports_array [pothole; garbage]), w').
Proof.
  split; [apply holds_persist|].
  exact (proj2 (addReport_appends [pothole] (report_object garbage)
                  (persist (reports_array [pothole]) fresh_world)
                  (persist (reports_array [pothole]) fresh_world)
                  (holds_persist _ _) eq_refl)).
Defined.

(** C4, the claim as stated fails: appending a report that does not fit
    the quota throws, and the store afterwards holds the earlier report
    alone, not followed by the new one. *)
Lemma addReport_over_quota :
  holds [pothole] (persist (reports_array [pothole]) fresh_world)
  /\ addReport (report_object oversized) (persist (reports_array [pothole]) fresh_world)
     = (Throw QuotaExceededError, persist (reports_array [pothole]) fresh_world).
Proof.
  split; [apply holds_persist|].
  rewrite (addReport_value [pothole]) by apply holds_persist.
  apply saveReports_over.
  apply (fits_too_large [pothole; oversized] oversized).
  - apply elem_of_cons. right. by apply list_elem_of_singleton.
  - exact oversized_too_large.
Qed.

Lemma addReport_holds (R : list Report) (r : Report) (w : world) :
  holds R w -> fits (reports_array (R ++ [r])) w = true ->
  addReport (report_object r) w = (Ok tt, persist (reports_array (R ++ [r])) w).
Proof.
  intros Hw Hfit. rewrite (addReport_value R _ w Hw).
  change (VArr ((report_object <$> R) ++ [report_object r]))
    with (VArr ((report_object <$> R) ++ (report_object <$> [r]))).
  rewrite <- fmap_app. by apply saveReports_persist.
Qed.

Lemma addReport_full (R : list Report) (r : Report) (w : world) :
  holds R w -> fits (reports_array (R ++ [r])) w = false ->
  addReport (report_object r) w = (Throw QuotaExceededError, w).
Proof.
  intros Hw Hfit. rewrite (addReport_value R _ w Hw).
  change (VArr ((report_object <$> R) ++ [report_object r]))
    with (VArr ((report_object <$> R) ++ (report_object <$> [r]))).
  rewrite <- fmap_app. by apply saveReports_over.
Qed.

Lemma has_id_report (i : jsstring) (r : Report) (w : world) :
  has_id i (report_object r) w = (Ok (bool_decide (id r = i)), w).
Proof. reflexivity. Qed.

Lemma findIndex_from_miss (i : jsstring) (R : list Report) (i0 : Z) (w : world) :
  Forall (fun r => id r ≠ i) R ->
  findIndex_from i0 (has_id i) (report_object <$> R) w = (Ok (-1)%Z, w).
Proof.
  intros H. revert i0. induction H as [|r R Hr _ IH]; intros i0; [reflexivity|].
  rewrite fmap_cons. cbn [findIndex_from]. unfold mbind, JS_bind.
  rewrite has_id_report, bool_decide_eq_false_2 by done. apply IH.
Qed.

Lemma findIndex_from_hit (i : jsstring) (R1 R2 : list Report) (r : Report)
    (i0 : Z) (w : world) :
  Forall (fun x => id x ≠ i) R1 -> id r = i ->
  findIndex_from i0 (has_id i) (report_object <$> (R1 ++ r :: R2)) w
  = (Ok (i0 + Z.of_nat (length R1))%Z, w).
Proof.
  intros H Hr. revert i0. induction H as [|x R1 Hx _ IH]; intros i0.
  - cbn [app]. rewrite fmap_cons. cbn [findIndex_from]. unfold mbind, JS_bind.
    rewrite has_id_report, bool_decide_eq_true_2 by done.
    cbn [length]. by rewrite Z.add_0_r.
  - cbn [app]. rewrite fmap_cons. cbn [findIndex_from]. unfold mbind, JS_bind.
    rewrite has_id_report, bool_decide_eq_false_2 by done.
    rewrite IH. cbn [length]. do 2 f_equal. lia.
Qed.

Lemma first_with_id (i : jsstring) (R : list Report) :
  Exists (fun r => id r = i) R ->
  exists R1 r R2,
    R = R1 ++ r :: R2 /\ Forall (fun x => id x ≠ i) R1 /\ id r = i.
Proof.
  induction R as [|x R IH]; intros H; [by apply Exists_nil in H|].
  destruct (decide (id x = i)) as [Hx|Hx].
  - exists [], x, R. by repeat split.
  - apply Exists_cons in H as [H|H]; [done|].
    destruct (IH H) as (R1 & r & R2 & -> & H1 & Hr).
    exists (x :: R1), r, R2. repeat split; [|done]. by constructor.
Qed.

Lemma assign_status_report (r : Report) (s : jsstring) (w : world) :
  assign_member (report_object r) (js "status") (VStr s) w
  = (Ok (report_object (set_status s r)), w).
Proof. reflexivity. Qed.

Lemma assign_status_at (R1 R2 : list Report) (r : Report) (s : jsstring) (w : world) :
  assign_at (reports_array (R1 ++ r :: R2)) (Z.of_nat (length R1))
            (js "status") (VStr s) w
  = (Ok (reports_array (R1 ++ set_status s r :: R2)), w).
Proof.
  unfold assign_at, reports_array. rewrite Nat2Z.id.
  rewrite fmap_app, fmap_cons.
  rewrite list_lookup_middle by (by rewrite length_fmap).
  unfold mbind, JS_bind. rewrite assign_status_report. unfold mret, JS_ret.
  rewrite insert_app_r_alt by (by rewrite length_fmap).
  rewrite length_fmap, Nat.sub_diag.
  by rewrite fmap_app, fmap_cons.
Qed.

Lemma updateReportStatus_unfold (i s : jsstring) (w : world) :
  updateReportStatus i s w =
  match getReports w with
  | (Ok reports, w1) =>
      match Array_findIndex reports (has_id i) w1 with
      | (Ok reportIndex, w2) =>
          if bool_decide (reportIndex ≠ (-1)%Z) then
            match assign_at reports reportIndex (js "status") (VStr s) w2 with
            | (Ok reports', w3) => saveReports reports' w3
            | (Throw e, w3) => (Throw e, w3)
            end
          else (Ok tt, w2)
      | (Throw e, w2) => (Throw e, w2)
      end
  | (Throw e, w1) => (Throw e, w1)
  end.
Proof.
  unfold updateReportStatus, mbind, JS_bind.
  destruct (getReports w) as [[reports|e] w1]; [|reflexivity].
  change (fun r : value => _) with (has_id i).
  destruct (Array_findIndex reports (has_id i) w1) as [[k|e] w2]; [|reflexivity].
  by destruct (bool_decide _).
Qed.

Lemma updateReportStatus_found (R1 R2 : list Report) (r : Report)
    (i s : jsstring) (w : world) :
  holds (R1 ++ r :: R2) w -> Forall (fun x => id x ≠ i) R1 -> id r = i ->
  updateReportStatus i s w
  = saveReports (reports_array (R1 ++ set_status s r :: R2)) w.
Proof.
  intros Hget H1 Hr. rewrite updateReportStatus_unfold, Hget.
  unfold Array_findIndex. unfold reports_array at 1.
  rewrite (findIndex_from_hit i R1 R2 r 0 w H1 Hr). rewrite Z.add_0_l.
  rewrite bool_decide_eq_true_2 by lia.
  rewrite assign_status_at. reflexivity.
Qed.

Lemma updateReportStatus_hit (R1 R2 : list Report) (r : Report)
    (i s : jsstring) (w : world) :
  holds (R1 ++ r :: R2) w -> Forall (fun x => id x ≠ i) R1 -> id r = i ->
  fits (reports_array (R1 ++ set_status s r :: R2)) w = true ->
  updateReportStatus i s w
  = (Ok tt, persist (reports_array (R1 ++ set_status s r :: R2)) w).
Proof.
  intros Hget H1 Hr Hfit. rewrite (updateReportStatus_found R1 R2 r) by done.
  by apply saveReports_persist.
Qed.

Lemma updateReportStatus_full (R1 R2 : list Report) (r : Report)
    (i s : jsstring) (w : world) :
  holds (R1 ++ r :: R2) w -> Forall (fun x => id x ≠ i) R1 -> id r = i ->
  fits (reports_array (R1 ++ set_status s r :: R2)) w = false ->
  updateReportStatus i s w = (Throw QuotaExceededError, w).
Proof.
  intros Hget H1 Hr Hfit. rewrite (updateReportStatus_found R1 R2 r) by done.
  by apply saveReports_over.
Qed.

Lemma updateReportStatus_miss (R : list Report) (i s : jsstring) (w : world) :
  holds R w -> Forall (fun r => id r ≠ i) R ->
  updateReportStatus i s w = (Ok tt, w).
Proof.
  intros Hget Hall. rewrite updateReportStatus_unfold, Hget.
  unfold Array_findIndex, reports_array.
  rewrite (findIndex_from_miss i R 0 w Hall). reflexivity.
Qed.

(** C3 (as amended).  When the store reads as [R], [updateReportStatus
    i s] rewrites the slot with the same reports in the same order, the
    first report whose id is [i] (there is one as soon as some report
    has that id) now having status [s] and all its other fields,
    submittedAt among them, as before, provided the new text fits the
    quota; when it does not fit, [QuotaExceededError] is thrown and the
    state is as it was.  When no report has id [i] the state is left as
    it was and nothing is thrown. *)
Theorem updateReportStatus_sets_status_only
    (R : list Report) (i s : jsstring) (w : world) :
  holds R w ->
  (forall R1 r R2,
     R = R1 ++ r :: R2 -> Forall (fun x => id x ≠ i) R1 -> id r = i ->
     if fits (reports_array (R1 ++ set_status s r :: R2)) w then
       updateReportStatus i s w
       = (Ok tt, persist (reports_array (R1 ++ set_status s r :: R2)) w)
       /\ holds (R1 ++ set_status s r :: R2)
                (persist (reports_array (R1 ++ set_status s r :: R2)) w)
     else
       updateReportStatus i s w = (Throw QuotaExceededError, w))
  /\ (Exists (fun r => id r = i) R ->
      exists R1 r R2,
        R = R1 ++ r :: R2 /\ Forall (fun x => id x ≠ i) R1 /\ id r = i)
  /\ (Forall (fun r => id r ≠ i) R -> updateReportStatus i s w = (Ok tt, w)).
Proof.
  intros Hw. split; [|split].
  - intros R1 r R2 -> H1 Hr.
    destruct (fits _ w) eqn:Hfit.
    + split; [by apply updateReportStatus_hit | apply holds_persist].
    + by apply (updateReportStatus_full R1 R2 r).
  - apply first_with_id.
  - by apply updateReportStatus_miss.
Qed.

Lemma updateReportStatus_sets_status_only_witness :
  holds [pothole; streetlight]
        (persist (reports_array [pothole; streetlight]) fresh_world)
  /\ updateReportStatus (id streetlight) (js "Pending")
       (persist (reports_array [pothole; streetlight]) fresh_world)
     = (Ok tt, persist (reports_array [pothole; set_status (js "Pending") streetlight])
                       (persist (reports_array [pothole; streetlight]) fresh_world)).
Proof.
  split; [apply holds_persist|].
  refine (proj1 (proj1 (updateReportStatus_sets_status_only [pothole; streetlight]
                  (id streetlight) (js "Pending")
                  (persist (reports_array [pothole; streetlight]) fresh_world)
                  (holds_persist _ _))
               [pothole] streetlight [] _ _ _)).
  - reflexivity.
  - constructor; [|constructor]. vm_compute. discriminate.
  - reflexivity.
Defined.

Lemma fits_alone (v v' : value) :
  fits v' (persist v fresh_world)
  = (N.of_nat (length STORAGE_KEY) + N.of_nat (length (JSON_stringify v'))
     <=? quota sample_engine)%N.
Proof.
  unfold fits, persist. cbn [localStorage browser fresh_world].
  by rewrite insert_insert_eq, storage_size_first.
Qed.

Lemma fits_first (v : value) :
  fits v fresh_world
  = (N.of_nat (length STORAGE_KEY) + N.of_nat (length (JSON_stringify v))
     <=? quota sample_engine)%N.
Proof.
  unfold fits. cbn [localStorage browser fresh_world].
  by rewrite storage_size_first.
Qed.

Lemma length_single_report (i c l d img s t : jsstring) :
  length (JSON_stringify (reports_array [mkReport i c l d img s t]))
  = (100 + length (quote_body i) + length (quote_body c) + length (quote_body l)
     + length (quote_body d) + length (quote_body img) + length (quote_body s)
     + length (quote_body t))%nat.
Proof.
  unfold JSON_stringify, reports_array. cbn [fmap list_fmap stringify join_comma].
  cbn [length]. rewrite length_app, length_stringify_report. cbn [length].
  cbn [id category location description imageData status submittedAt]. lia.
Qed.

Lemma brimful_photo_text : quote_body brimful_photo = brimful_photo.
Proof.
  apply no_escape_quote_body. unfold brimful_photo.
  rewrite forallb_app, forallb_replicate by reflexivity.
  rewrite andb_true_r. vm_compute. reflexivity.
Qed.

Lemma brimful_photo_length : length brimful_photo = N.to_nat 5242689.
Proof.
  unfold brimful_photo. rewrite length_app, length_replicate.
  change (length (js "data:image/png;base64,")) with 22%nat. lia.
Qed.

(** Evaluate the lengths of the literal fields of the goal. *)
Ltac eval_lengths :=
  repeat match goal with
         | |- context [length (quote_body (js ?k))] =>
             let n := eval vm_compute in (length (quote_body (js k))) in
             change (length (quote_body (js k))) with n
         | |- context [length (quote_body [])] =>
             change (length (quote_body [])) with 0%nat
         | |- context [length STORAGE_KEY] =>
             change (length STORAGE_KEY) with 18%nat
         | |- context [quota sample_engine] =>
             change (quota sample_engine) with 5242880%N
         end.

(** C3, the claim as stated fails: with a storage area that the stored
    collection fills to the last code unit, setting the status of its
    report from "Pending" to the longer "In Progress" throws
    [QuotaExceededError], and the report keeps its status. *)
Lemma updateReportStatus_over_quota :
  fits (reports_array [brimful]) fresh_world = true
  /\ holds [brimful] (persist (reports_array [brimful]) fresh_world)
  /\ updateReportStatus (id brimful) (js "In Progress")
       (persist (reports_array [brimful]) fresh_world)
     = (Throw QuotaExceededError, persist (reports_array [brimful]) fresh_world).
Proof.
  split; [|split; [apply holds_persist|]].
  - rewrite fits_first. apply N.leb_le. unfold brimful.
    rewrite length_single_report, brimful_photo_text, brimful_photo_length.
    eval_lengths. lia.
  - apply (updateReportStatus_full [] [] brimful).
    + apply holds_persist.
    + constructor.
    + reflexivity.
    + rewrite fits_alone. apply N.leb_gt. unfold brimful, set_status.
      cbn [app id category location description imageData status submittedAt].
      rewrite length_single_report, brimful_photo_text, brimful_photo_length.
      eval_lengths. lia.
Qed.

(** ** Views *)

(** C10.  [getStatusClass] is defined on every string.  "Resolved" and
    "In Progress" have a token each, the three tokens are distinct, and
    every other string, "Pending" among them, gets the token of
    "Pending". *)
Theorem getStatusClass_total (s : jsstring) :
  (s = js "Resolved" /\ getStatusClass s = js "bg-green-100 text-green-800"
   \/ s = js "In Progress" /\ getStatusClass s = js "bg-yellow-100 text-yellow-800"
   \/ s ≠ js "Resolved" /\ s ≠ js "In Progress"
      /\ getStatusClass s = getStatusClass (js "Pending"))
  /\ getStatusClass (js "Pending") = js "bg-red-100 text-red-800"
  /\ getStatusClass (js "Resolved") ≠ getStatusClass (js "In Progress")
  /\ getStatusClass (js "Resolved") ≠ getStatusClass (js "Pending")
  /\ getStatusClass (js "In Progress") ≠ getStatusClass (js "Pending").
Proof.
  split; [|by repeat split].
  unfold getStatusClass at 1 2 3.
  destruct (decide (s = js "Resolved")) as [->|H1]; [by left|].
  destruct (decide (s = js "In Progress")) as [->|H2]; [by right; left|].
  right. right. rewrite !bool_decide_eq_false_2 by done. by repeat split.
Qed.

Lemma filterByStatus_cons (r : Report) (R : list Report) (s : jsstring) :
  filterByStatus (r :: R) s
  = if bool_decide (status r = s) then r :: filterByStatus R s
    else filterByStatus R s.
Proof. reflexivity. Qed.

Lemma filterByStatus_all (R : list Report) (s : jsstring) :
  Forall (fun r => status r = s) R -> filterByStatus R s = R.
Proof.
  induction 1 as [|r R Hr _ IH]; [reflexivity|].
  by rewrite filterByStatus_cons, bool_decide_eq_true_2, IH.
Qed.

Lemma filterByStatus_sublist (R : list Report) (s : jsstring) :
  filterByStatus R s `sublist_of` R.
Proof.
  induction R as [|r R IH]; [constructor|].
  rewrite filterByStatus_cons. destruct (bool_decide _); by constructor.
Qed.

Lemma filterByStatus_keeps (R R' : list Report) (s : jsstring) :
  R' `sublist_of` R -> Forall (fun r => status r = s) R' ->
  R' `sublist_of` filterByStatus R s.
Proof.
  induction 1 as [|r R1 R2 _ IH|r R1 R2 _ IH]; intros Hall.
  - constructor.
  - apply Forall_cons in Hall as [Hr Hall].
    rewrite filterByStatus_cons, bool_decide_eq_true_2 by done.
    constructor. by apply IH.
  - rewrite filterByStatus_cons. destruct (bool_decide _); [constructor|]; by apply IH.
Qed.

(** C8.  [filterByStatus R s] consists of reports of status [s]; it is a
    subsequence of [R] (same relative order); a report is in it exactly
    when it is in [R] with status [s]; and every subsequence of [R] made
    of reports of status [s] is a subsequence of it, so that no
    occurrence of such a report is dropped. *)
Theorem filterByStatus_exact (R : list Report) (s : jsstring) :
  Forall (fun r => status r = s) (filterByStatus R s)
  /\ filterByStatus R s `sublist_of` R
  /\ (forall r, r ∈ filterByStatus R s <-> r ∈ R /\ status r = s)
  /\ (forall R', R' `sublist_of` R -> Forall (fun r => status r = s) R' ->
                 R' `sublist_of` filterByStatus R s).
Proof.
  assert (Hmem : forall r, r ∈ filterByStatus R s <-> r ∈ R /\ status r = s).
  { intros r. unfold filterByStatus. rewrite !list_elem_of_In, filter_In.
    by rewrite bool_decide_eq_true. }
  split; [|split; [|split]].
  - apply Forall_forall. intros r Hr. by apply Hmem in Hr as [_ Hr].
  - apply filterByStatus_sublist.
  - exact Hmem.
  - intros R'. apply filterByStatus_keeps.
Qed.

Lemma has_status_report (s : jsstring) (r : Report) (w : world) :
  has_status s (report_object r) w = (Ok (bool_decide (status r = s)), w).
Proof. reflexivity. Qed.

(** The filter of the views, run on the array of report objects, selects
    the objects of the reports [filterByStatus] selects. *)
Lemma Array_filter_reports (R : list Report) (s : jsstring) (w : world) :
  Array_filter (has_status s) (report_object <$> R) w
  = (Ok (report_object <$> filterByStatus R s), w).
Proof.
  induction R as [|r R IH]; [reflexivity|].
  rewrite fmap_cons. cbn [Array_filter]. unfold mbind, JS_bind.
  rewrite has_status_report, IH, filterByStatus_cons.
  by destruct (bool_decide (status r = s)).
Qed.

Example filterByStatus_resolved :
  filterByStatus [pothole; streetlight; garbage] (js "Resolved") = [streetlight].
Proof. reflexivity. Qed.

Lemma filteredReports_status (R : list Report) (s : jsstring) :
  s ∈ [js "Pending"; js "In Progress"; js "Resolved"] ->
  filteredReports s R = filterByStatus R s.
Proof.
  intros Hs. unfold filteredReports.
  rewrite bool_decide_eq_false_2.
  - by rewrite bool_decide_eq_true_2.
  - intros ->. apply list_elem_of_In in Hs.
    destruct Hs as [H|[H|[H|[]]]]; discriminate H.
Qed.

(** ** The submit handler *)

Lemma on_submit_unfold (env : readings) (w : world) :
  on_submit env w =
  let w1 := World (localStorage w) (console w)
                  (hide_message (set_submit true (js "Submitting...") (page w))) (browser w) in
  match submit_attempt env w1 with
  | (Ok tt, w2) => (Ok tt, w2)
  | (Throw error, w2) =>
      (Ok tt,
       World (localStorage w2) (console w2)
             (set_submit false (js "Submit Report")
                (show_message (js "Error: " ++ error_message (browser w2) error)
                   (js "p-3 rounded-lg text-sm bg-red-100 text-red-800")
                   (page w2))) (browser w2))
  end.
Proof.
  unfold on_submit, try_catch, mbind, JS_bind, update_page, read_browser. cbn [localStorage console page].
  destruct (submit_attempt env _) as [[[]|e] w2]; reflexivity.
Qed.

Lemma submit_attempt_invalid (env : readings) (w : world) :
  issue_category (page w) = [] \/ location_value (page w) = []
  \/ photo_upload (page w) = [] ->
  submit_attempt env w = (Throw (Error REQUIRED_FIELDS), w).
Proof.
  intros H. unfold submit_attempt, read_page, mbind, JS_bind.
  destruct (issue_category (page w)) as [|c cat]; [reflexivity|].
  destruct (location_value (page w)) as [|l loc]; [reflexivity|].
  destruct (photo_upload (page w)) as [|f fs]; [reflexivity|].
  by destruct H as [H|[H|H]].
Qed.

Lemma on_submit_invalid (env : readings) (w : world) :
  issue_category (page w) = [] \/ location_value (page w) = []
  \/ photo_upload (page w) = [] ->
  on_submit env w
  = (Ok tt, World (localStorage w) (console w) (failed_page (browser w) (Error REQUIRED_FIELDS) (page w)) (browser w)).
Proof.
  intros H. rewrite on_submit_unfold. cbv zeta.
  by rewrite submit_attempt_invalid by (cbn; exact H).
Qed.

Lemma submit_attempt_unreadable (env : readings) (w : world) (files : list File) :
  issue_category (page w) ≠ [] -> location_value (page w) ≠ [] ->
  photo_upload (page w) = UnreadableFile :: files ->
  submit_attempt env w = (Throw ProgressEvent, w).
Proof.
  intros Hc Hl Hp. unfold submit_attempt, read_page, mbind, JS_bind.
  destruct (issue_category (page w)) as [|c cat]; [done|].
  destruct (location_value (page w)) as [|l loc]; [done|].
  rewrite Hp. reflexivity.
Qed.

Lemma on_submit_unreadable (env : readings) (w : world) (files : list File) :
  issue_category (page w) ≠ [] -> location_value (page w) ≠ [] ->
  photo_upload (page w) = UnreadableFile :: files ->
  on_submit env w
  = (Ok tt, World (localStorage w) (console w) (failed_page (browser w) ProgressEvent (page w)) (browser w)).
Proof.
  intros Hc Hl Hp. rewrite on_submit_unfold. cbv zeta.
  by rewrite (submit_attempt_unreadable env _ files) by (cbn; assumption).
Qed.

(** C6.  With the category, the location or the photo missing, the
    attempt throws an [Error] whose message is the required-fields text;
    the handler catches it, shows "Error: " followed by that message,
    enables the submit button again, keeps the user's input, writes
    nothing to the store and does not throw. *)
Theorem on_submit_missing_field (env : readings) (w : world) :
  issue_category (page w) = [] \/ location_value (page w) = []
  \/ photo_upload (page w) = [] ->
  exists w',
    on_submit env w = (Ok tt, w')
    /\ (exists w1, fst (submit_attempt env w1) = Throw (Error REQUIRED_FIELDS)
                   /\ page w1 = hide_message (set_submit true (js "Submitting...") (page w)))
    /\ localStorage w' = localStorage w
    /\ message_text (page w') = js "Error: " ++ REQUIRED_FIELDS
    /\ message_hidden (page w') = false
    /\ submit_disabled (page w') = false
    /\ submit_text (page w') = js "Submit Report"
    /\ issue_category (page w') = issue_category (page w)
    /\ location_value (page w') = location_value (page w)
    /\ description_value (page w') = description_value (page w)
    /\ photo_upload (page w') = photo_upload (page w).
Proof.
  intros H. rewrite (on_submit_invalid env w H).
  eexists. split; [reflexivity|]. split.
  - exists (World (localStorage w) (console w)
                  (hide_message (set_submit true (js "Submitting...") (page w))) (browser w)).
    rewrite submit_attempt_invalid by (cbn; exact H). split; reflexivity.
  - by repeat split.
Qed.

Lemma on_submit_missing_field_witness :
  exists w',
    on_submit (Readings 1700000000000 (js "0.k3j9x2a1") (js "2023-11-14T22:13:20.000Z"))
      (World ∅ [] (fill_form (js "Pothole") [] [] [ReadableFile (js "data:,")] blank_form) sample_engine)
    = (Ok tt, w')
    /\ localStorage w' = ∅
    /\ message_text (page w')
       = js "Error: Please fill out all required fields and add a photo."
    /\ submit_disabled (page w') = false.
Proof.
  destruct (on_submit_missing_field
              (Readings 1700000000000 (js "0.k3j9x2a1") (js "2023-11-14T22:13:20.000Z"))
              (World ∅ [] (fill_form (js "Pothole") [] [] [ReadableFile (js "data:,")]
                             blank_form) sample_engine))
    as (w' & Hrun & _ & Hstore & Hmsg & _ & Hbtn & _).
  - right. left. reflexivity.
  - exists w'. repeat split; assumption.
Defined.

(** ** Identifiers *)

Lemma uint_digits_inj (d d' : Decimal.uint) :
  uint_digits d = uint_digits d' -> d = d'.
Proof.
  revert d'. induction d as [|d IH|d IH|d IH|d IH|d IH|d IH|d IH|d IH|d IH|d IH];
    intros [|d'|d'|d'|d'|d'|d'|d'|d'|d'|d'] H; cbn in H; try discriminate H;
    try reflexivity; f_equal; apply IH; congruence.
Qed.

Lemma uint_digits_are_digits (d : Decimal.uint) :
  Forall (fun c => is_digit c = true) (uint_digits d).
Proof. induction d; cbn; constructor; auto. Qed.

Lemma Pos_to_uint_not_zero (p : positive) : Pos.to_uint p ≠ Decimal.D0 Decimal.Nil.
Proof.
  intros H. assert (H' := DecimalPos.Unsigned.of_to p). rewrite H in H'. discriminate H'.
Qed.

Lemma Pos_to_uint_inj (p q : positive) : Pos.to_uint p = Pos.to_uint q -> p = q.
Proof.
  intros H. assert (Hp := DecimalPos.Unsigned.of_to p).
  rewrite H, DecimalPos.Unsigned.of_to in Hp. congruence.
Qed.

Lemma Number_toString_chars (n : Z) :
  Forall (fun c => c ≠ 95%N) (Number_toString n).
Proof.
  assert (Hd : forall d, Forall (fun c => c ≠ 95%N) (uint_digits d)).
  { intros d. eapply Forall_impl; [apply uint_digits_are_digits|].
    intros c Hc ->. discriminate Hc. }
  destruct n as [|p|p]; cbn [Number_toString].
  - by repeat constructor.
  - apply Hd.
  - constructor; [done|apply Hd].
Qed.

Lemma Number_toString_inj (n m : Z) :
  Number_toString n = Number_toString m -> n = m.
Proof.
  assert (Hz : forall p, uint_digits (Pos.to_uint p) ≠ [48%N]).
  { intros p H. apply (Pos_to_uint_not_zero p). by apply uint_digits_inj. }
  assert (Hm : forall p d, uint_digits (Pos.to_uint p) ≠ 45%N :: d).
  { intros p d H. assert (Hall := uint_digits_are_digits (Pos.to_uint p)).
    rewrite H in Hall. apply Forall_cons in Hall as [Hc _]. discriminate Hc. }
  destruct n as [|p|p], m as [|q|q]; cbn [Number_toString]; intros H;
    try reflexivity; try discriminate H.
  - symmetry in H. by apply Hz in H.
  - by apply Hz in H.
  - f_equal. by apply Pos_to_uint_inj, uint_digits_inj.
  - by apply Hm in H.
  - symmetry in H. by apply Hm in H.
  - f_equal. apply Pos_to_uint_inj, uint_digits_inj. congruence.
Qed.

Lemma split_at_mark (a a' b b' : jsstring) (m : N) :
  Forall (fun c => c ≠ m) a -> Forall (fun c => c ≠ m) a' ->
  a ++ m :: b = a' ++ m :: b' -> a = a' /\ b = b'.
Proof.
  intros Ha. revert a'. induction Ha as [|c a Hc _ IH]; intros a' Ha' H.
  - destruct Ha' as [|c' a' Hc' _]; cbn in H; [by simplify_eq|].
    exfalso. apply Hc'. congruence.
  - destruct Ha' as [|c' a' Hc' Ha']; cbn in H.
    + exfalso. apply Hc. congruence.
    + injection H as -> H. destruct (IH a' Ha' H) as [-> ->]. done.
Qed.

(** Two identifiers are equal exactly when they were made from the same
    clock reading and the same seven random characters. *)
Lemma generateId_eq (env env' : readings) :
  generateId env = generateId env' <->
  Date_now env = Date_now env'
  /\ substring 2 9 (Math_random_toString36 env)
     = substring 2 9 (Math_random_toString36 env').
Proof.
  unfold generateId. split.
  - intros H. apply app_inv_head in H.
    apply split_at_mark in H as [Hn Hs]; [|apply Number_toString_chars..].
    split; [by apply Number_toString_inj|exact Hs].
  - by intros [-> ->].
Qed.

Example generateId_sample :
  generateId (Readings 1700000000000 (js "0.k3j9x2a1xyz") (js "2023-11-14T22:13:20.000Z"))
  = js "report_1700000000000_k3j9x2a".
Proof. vm_compute. reflexivity. Qed.

Example generateId_random_zero :
  generateId (Readings 1700000000000 (js "0") (js "2023-11-14T22:13:20.000Z"))
  = js "report_1700000000000_".
Proof. vm_compute. reflexivity. Qed.

(** The report a valid submission builds from the form. *)
Lemma fits_same_area (v : value) (w w' : world) :
  localStorage w' = localStorage w -> browser w' = browser w ->
  fits v w' = fits v w.
Proof. unfold fits. by intros -> ->. Qed.

Lemma submit_attempt_valid (R : list Report) (env : readings) (w : world)
    (d : jsstring) (files : list File) :
  holds R w ->
  issue_category (page w) ≠ [] -> location_value (page w) ≠ [] ->
  photo_upload (page w) = ReadableFile d :: files ->
  fits (reports_array (R ++ [newReport env d (page w)])) w = true ->
  submit_attempt env w
  = (Ok tt,
     World (<[STORAGE_KEY :=
                JSON_stringify (reports_array (R ++ [newReport env d (page w)]))]>
              (localStorage w))
           (console w)
           (reset_fields
              (set_submit false (js "Submit Report")
                 (show_message (js "Report submitted successfully!")
                    (js "p-3 rounded-lg text-sm bg-green-100 text-green-800")
                    (page w)))) (browser w)).
Proof.
  intros Hw Hc Hl Hp Hfit. unfold submit_attempt, read_page, mbind, JS_bind.
  unfold newReport in Hfit |- *.
  destruct (issue_category (page w)) as [|c cat]; [done|].
  destruct (location_value (page w)) as [|l loc]; [done|].
  rewrite Hp. cbn [head readImageAsDataURL mret JS_ret].
  rewrite (addReport_holds R _ w Hw Hfit). reflexivity.
Qed.

Lemma submit_attempt_full (R : list Report) (env : readings) (w : world)
    (d : jsstring) (files : list File) :
  holds R w ->
  issue_category (page w) ≠ [] -> location_value (page w) ≠ [] ->
  photo_upload (page w) = ReadableFile d :: files ->
  fits (reports_array (R ++ [newReport env d (page w)])) w = false ->
  submit_attempt env w = (Throw QuotaExceededError, w).
Proof.
  intros Hw Hc Hl Hp Hfit. unfold submit_attempt, read_page, mbind, JS_bind.
  unfold newReport in Hfit.
  destruct (issue_category (page w)) as [|c cat]; [done|].
  destruct (location_value (page w)) as [|l loc]; [done|].
  rewrite Hp. cbn [head readImageAsDataURL mret JS_ret].
  rewrite (addReport_full R _ w Hw Hfit). reflexivity.
Qed.

Lemma on_submit_valid (R : list Report) (env : readings) (w : world)
    (d : jsstring) (files : list File) :
  holds R w ->
  issue_category (page w) ≠ [] -> location_value (page w) ≠ [] ->
  photo_upload (page w) = ReadableFile d :: files ->
  fits (reports_array (R ++ [newReport env d (page w)])) w = true ->
  on_submit env w
  = (Ok tt,
     World (<[STORAGE_KEY :=
                JSON_stringify (reports_array (R ++ [newReport env d (page w)]))]>
              (localStorage w))
           (console w) (submitted_page (page w)) (browser w)).
Proof.
  intros Hw Hc Hl Hp Hfit. rewrite on_submit_unfold. cbv zeta.
  rewrite (submit_attempt_valid R env _ d files);
    [reflexivity|by apply (holds_same_slot R w)|done..].
Qed.

Lemma on_submit_full (R : list Report) (env : readings) (w : world)
    (d : jsstring) (files : list File) :
  holds R w ->
  issue_category (page w) ≠ [] -> location_value (page w) ≠ [] ->
  photo_upload (page w) = ReadableFile d :: files ->
  fits (reports_array (R ++ [newReport env d (page w)])) w = false ->
  on_submit env w
  = (Ok tt, World (localStorage w) (console w)
                  (failed_page (browser w) QuotaExceededError (page w)) (browser w)).
Proof.
  intros Hw Hc Hl Hp Hfit. rewrite on_submit_unfold. cbv zeta.
  rewrite (submit_attempt_full R env _ d files);
    [reflexivity|by apply (holds_same_slot R w)|done..].
Qed.

Lemma holds_after_write (R : list Report) (w : world) (c : list (jsstring * exn))
    (p : form) :
  holds R (World (<[STORAGE_KEY := JSON_stringify (reports_array R)]> (localStorage w)) c p (browser w)).
Proof.
  apply (holds_same_slot _ (persist (reports_array R) w));
    [reflexivity|apply holds_persist].
Qed.

(** X21.  A submission with a category, a location and a readable photo,
    made while the store reads as [R].  When the longer collection fits
    the quota the store afterwards reads as [R] followed by one new
    report: the form's category, location and description, the photo's
    data URL, status "Pending", the clock's ISO time as submittedAt, and
    the id that [generateId] builds from the clock and the random
    numeral; that id differs from every stored id that was built from
    another clock reading or other random characters.  When it does not
    fit, the store is as before and the page shows the engine's message
    for the quota error.  The handler throws in neither case. *)
Theorem on_submit_appends_pending (R : list Report) (env : readings) (w : world)
    (d : jsstring) (files : list File) :
  holds R w ->
  issue_category (page w) ≠ [] -> location_value (page w) ≠ [] ->
  photo_upload (page w) = ReadableFile d :: files ->
  let r := newReport env d (page w) in
  exists w',
    on_submit env w = (Ok tt, w')
    /\ submit_disabled (page w') = false
    /\ if fits (reports_array (R ++ [r])) w then
         localStorage w'
         = <[STORAGE_KEY := JSON_stringify (reports_array (R ++ [r]))]> (localStorage w)
         /\ holds (R ++ [r]) w'
         /\ status r = js "Pending" /\ submittedAt r = Date_toISOString env
         /\ message_text (page w') = js "Report submitted successfully!"
         /\ forall x env',
              x ∈ R -> id x = generateId env' ->
              Date_now env' ≠ Date_now env
              \/ substring 2 9 (Math_random_toString36 env')
                 ≠ substring 2 9 (Math_random_toString36 env) ->
              id x ≠ id r
       else
         localStorage w' = localStorage w
         /\ holds R w'
         /\ message_text (page w')
            = js "Error: " ++ wording (browser w) QuotaExceededError.
Proof.
  intros Hw Hc Hl Hp r. destruct (fits (reports_array (R ++ [r])) w) eqn:Hfit.
  - rewrite (on_submit_valid R env w d files Hw Hc Hl Hp Hfit).
    eexists. split; [reflexivity|]. cbn [page localStorage console].
    split; [reflexivity|]. split; [reflexivity|]. split.
    + apply holds_after_write.
    + split; [reflexivity|]. split; [reflexivity|]. split; [reflexivity|].
      intros x env' _ Hx Hne Heq. cbn [id r newReport] in Heq. rewrite Hx in Heq.
      apply generateId_eq in Heq as [H1 H2]. by destruct Hne.
  - rewrite (on_submit_full R env w d files Hw Hc Hl Hp Hfit).
    eexists. split; [reflexivity|]. cbn [page localStorage console].
    split; [reflexivity|]. split; [reflexivity|]. split; [|reflexivity].
    by apply (holds_same_slot R w).
Qed.

Lemma on_submit_appends_pending_witness :
  exists w',
    on_submit (Readings 1700000123456 (js "0.4fzyo82mvyr") (js "2023-11-14T22:15:23.456Z"))
      (World (localStorage (persist (reports_array [pothole]) fresh_world)) []
             (fill_form (js "Garbage") (js "Park Rd") [] [ReadableFile (js "data:,")]
                blank_form) sample_engine)
    = (Ok tt, w')
    /\ holds [pothole;
              mkReport (js "report_1700000123456_4fzyo82") (js "Garbage") (js "Park Rd")
                       [] (js "data:,") (js "Pending") (js "2023-11-14T22:15:23.456Z")]
             w'.
Proof.
  destruct (on_submit_appends_pending [pothole]
              (Readings 1700000123456 (js "0.4fzyo82mvyr") (js "2023-11-14T22:15:23.456Z"))
              (World (localStorage (persist (reports_array [pothole]) fresh_world)) []
                 (fill_form (js "Garbage") (js "Park Rd") [] [ReadableFile (js "data:,")]
                    blank_form) sample_engine)
              (js "data:,") [])
    as (w' & Hrun & _ & Hfit).
  - apply (holds_same_slot _ (persist (reports_array [pothole]) fresh_world));
      [reflexivity|apply holds_persist].
  - discriminate.
  - discriminate.
  - reflexivity.
  - exists w'. split; [exact Hrun|exact (proj1 (proj2 Hfit))].
Defined.

(** C5.  The code at the failing input: the store holds a report whose
    id was generated at clock reading 1700000000000 with the random
    characters k3j9x2a; a submission made at that clock reading for
    which [Math.random] gives those characters again succeeds, and the
    store then holds two reports with the same id.  [generateId] never
    consults the stored ids. *)
Theorem on_submit_id_collision :
  let w := World (localStorage (persist (reports_array [pothole]) fresh_world)) []
                 (fill_form (js "Garbage") (js "Park Rd") [] [ReadableFile (js "data:,")]
                    blank_form) sample_engine in
  let env := Readings 1700000000000 (js "0.k3j9x2a") (js "2023-11-14T22:13:20.000Z") in
  let r := mkReport (generateId env) (js "Garbage") (js "Park Rd") []
                    (js "data:,") (js "Pending") (js "2023-11-14T22:13:20.000Z") in
  holds [pothole] w
  /\ holds [pothole; r] (snd (on_submit env w))
  /\ message_text (page (snd (on_submit env w))) = js "Report submitted successfully!"
  /\ id r = id pothole.
Proof.
  cbv zeta. split; [vm_compute; reflexivity|]. split; [vm_compute; reflexivity|].
  split; [vm_compute; reflexivity|]. vm_compute. reflexivity.
Qed.

(** ** The lifecycle of a report *)

Lemma on_submit_store (R : list Report) (env : readings) (w : world) :
  holds R w ->
  holds R (snd (on_submit env w))
  \/ exists r, status r = js "Pending" /\ id r = generateId env
               /\ holds (R ++ [r]) (snd (on_submit env w)).
Proof.
  intros Hw.
  destruct (decide (issue_category (page w) = [])) as [Hc|Hc].
  { left. rewrite on_submit_invalid by (by left).
    by apply (holds_same_slot R w). }
  destruct (decide (location_value (page w) = [])) as [Hl|Hl].
  { left. rewrite on_submit_invalid by (by right; left).
    by apply (holds_same_slot R w). }
  destruct (photo_upload (page w)) as [|[d|] files] eqn:Hp.
  - left. rewrite on_submit_invalid by (by right; right).
    by apply (holds_same_slot R w).
  - destruct (fits (reports_array (R ++ [newReport env d (page w)])) w) eqn:Hfit.
    + right. rewrite (on_submit_valid R env w d files Hw Hc Hl Hp Hfit).
      exists (newReport env d (page w)).
      split; [reflexivity|]. split; [reflexivity|]. apply holds_after_write.
    + left. rewrite (on_submit_full R env w d files Hw Hc Hl Hp Hfit).
      by apply (holds_same_slot R w).
  - left. rewrite (on_submit_unreadable env w files Hc Hl Hp).
    by apply (holds_same_slot R w).
Qed.

Lemma on_click_target (b : button) :
  on_click b = updateReportStatus (target b).1 (target b).2.
Proof. by destruct b. Qed.

(** What [updateReportStatus] does to a collection of reports. *)
Lemma updateReportStatus_store (R : list Report) (i s : jsstring) (w : world) :
  holds R w ->
  exists R', holds R' (snd (updateReportStatus i s w))
             /\ (R' = R \/ status_set i s R R').
Proof.
  intros Hw. destruct (decide (Exists (fun r => id r = i) R)) as [Hex|Hno].
  - destruct (first_with_id i R Hex) as (R1 & r & R2 & -> & H1 & Hr).
    destruct (fits (reports_array (R1 ++ set_status s r :: R2)) w) eqn:Hfit.
    + rewrite (updateReportStatus_hit R1 R2 r i s w Hw H1 Hr Hfit).
      exists (R1 ++ set_status s r :: R2). split; [apply holds_persist|].
      right. by exists R1, r, R2.
    + rewrite (updateReportStatus_full R1 R2 r i s w Hw H1 Hr Hfit).
      exists (R1 ++ r :: R2). split; [exact Hw|by left].
  - rewrite (updateReportStatus_miss R i s w Hw).
    + exists R. split; [exact Hw|by left].
    + apply Forall_forall. intros x Hx Hid. apply Hno, Exists_exists. by exists x.
Qed.

Lemma card_buttons_spec (r : Report) (b : button) :
  b ∈ template_card_buttons r ->
  exists s, b = StatusBtn (id r) s /\ code_transition (status r) s.
Proof.
  unfold template_card_buttons. intros Hb. apply elem_of_app in Hb as [Hb|Hb].
  - destruct (decide (status r = js "Pending")) as [Hs|Hs].
    + rewrite bool_decide_eq_true_2 in Hb by done. apply list_elem_of_singleton in Hb.
      exists (js "In Progress"). rewrite Hs. split; [done|constructor].
    + rewrite bool_decide_eq_false_2 in Hb by done. by apply elem_of_nil in Hb.
  - destruct (decide (status r = js "In Progress")) as [Hs|Hs].
    + rewrite bool_decide_eq_true_2 in Hb by done. cbn [orb] in Hb.
      apply list_elem_of_singleton in Hb.
      exists (js "Resolved"). rewrite Hs. split; [done|constructor].
    + rewrite (bool_decide_eq_false_2 _ Hs) in Hb. cbn [orb] in Hb.
      destruct (decide (status r = js "Pending")) as [Hp|Hp].
      * rewrite bool_decide_eq_true_2 in Hb by done. apply list_elem_of_singleton in Hb.
        exists (js "Resolved"). rewrite Hp. split; [done|constructor].
      * rewrite bool_decide_eq_false_2 in Hb by done. by apply elem_of_nil in Hb.
Qed.

Lemma row_buttons_spec (r : Report) (b : button) :
  b ∈ template_row_buttons r ->
  b = ReopenBtn (id r) /\ code_transition (status r) (js "Pending").
Proof.
  unfold template_row_buttons. intros Hb.
  destruct (decide (status r = js "Resolved")) as [Hs|Hs].
  - rewrite bool_decide_eq_true_2 in Hb by done. apply list_elem_of_singleton in Hb.
    rewrite Hs. split; [done|constructor].
  - rewrite bool_decide_eq_false_2 in Hb by done. by apply elem_of_nil in Hb.
Qed.

Lemma template_button_target (r : Report) (b : button) :
  b ∈ template_card_buttons r \/ b ∈ template_row_buttons r ->
  (target b).1 = id r /\ code_transition (status r) (target b).2.
Proof.
  intros [Hb|Hb].
  - apply card_buttons_spec in Hb as (s & -> & Hs). by split.
  - apply row_buttons_spec in Hb as (-> & Hs). by split.
Qed.


(** What one event does to a collection of reports. *)
Lemma handle_store (R : list Report) (e : event) (w : world) :
  holds R w ->
  exists R',
    holds R' (snd (handle e w))
    /\ match e with
       | Submit _ _ _ _ env =>
           R' = R \/ exists r, status r = js "Pending" /\ id r = generateId env
                               /\ R' = R ++ [r]
       | Click b => R' = R \/ status_set (target b).1 (target b).2 R R'
       | Logout => R' = R
       end.
Proof.
  intros Hw. destruct e as [cat loc desc files env|b|]; cbn [handle].
  - unfold mbind, JS_bind, update_page.
    set (w1 := World (localStorage w) (console w)
                     (fill_form cat loc desc files (page w)) (browser w)).
    assert (Hw1 : holds R w1) by (by apply (holds_same_slot R w)).
    destruct (on_submit_store R env w1 Hw1) as [H|(r & Hr & Hi & H)].
    + exists R. split; [exact H|by left].
    + exists (R ++ [r]). split; [exact H|]. right. by exists r.
  - rewrite on_click_target. by apply updateReportStatus_store.
  - exists R. split; [|done].
    apply (holds_same_slot R w); [|done].
    cbn. apply lookup_delete_ne. discriminate.
Qed.




(** ** Sorting newest first *)

Section SortingFacts.
Variable Date_parse : jsstring -> option Z.

Lemma sort_insert_Permutation (x : Report) (l : list Report) :
  Permutation (sort_insert Date_parse x l) (x :: l).
Proof.
  induction l as [|y l IH]; [reflexivity|]. cbn [sort_insert].
  destruct (stays_before Date_parse x y); [reflexivity|].
  rewrite IH. apply perm_swap.
Qed.

Lemma Array_sort_Permutation (l : list Report) : Permutation (Array_sort Date_parse l) l.
Proof.
  induction l as [|x l IH]; [reflexivity|]. cbn [Array_sort].
  by rewrite sort_insert_Permutation, IH.
Qed.

(** Elements that the comparator never puts one after the other keep
    their relative order. *)
Lemma sort_insert_filter (P : Report -> bool) (x : Report) (l : list Report) :
  (forall a b, P a = true -> P b = true -> stays_before Date_parse a b = true) ->
  List.filter P (sort_insert Date_parse x l) = List.filter P (x :: l).
Proof.
  intros HP. induction l as [|y l IH]; [reflexivity|]. cbn [sort_insert].
  destruct (stays_before Date_parse x y) eqn:Hxy; [reflexivity|].
  cbn [List.filter] in IH |- *. rewrite IH.
  destruct (P x) eqn:Hx, (P y) eqn:Hy; try reflexivity.
  rewrite (HP x y Hx Hy) in Hxy. discriminate Hxy.
Qed.

Lemma Array_sort_filter (P : Report -> bool) (l : list Report) :
  (forall a b, P a = true -> P b = true -> stays_before Date_parse a b = true) ->
  List.filter P (Array_sort Date_parse l) = List.filter P l.
Proof.
  intros HP. induction l as [|x l IH]; [reflexivity|]. cbn [Array_sort].
  rewrite sort_insert_filter by done. cbn [List.filter]. by rewrite IH.
Qed.

Lemma stays_before_same_time (a b : Report) :
  time_of Date_parse a = time_of Date_parse b ->
  stays_before Date_parse a b = true.
Proof.
  unfold time_of, stays_before, compareFn. intros ->.
  destruct (Date_parse (submittedAt b)); [|reflexivity].
  apply Z.leb_le. lia.
Qed.

Lemma stays_before_false (a b : Report) :
  stays_before Date_parse a b = false -> not_older Date_parse b a /\ ~ not_older Date_parse a b.
Proof.
  unfold stays_before, not_older, time_of, compareFn.
  destruct (Date_parse (submittedAt b)) as [tb|], (Date_parse (submittedAt a)) as [ta|];
    try discriminate. intros H. apply Z.leb_gt in H. lia.
Qed.

Lemma stays_before_true (a b : Report) :
  is_Some (time_of Date_parse a) -> is_Some (time_of Date_parse b) ->
  stays_before Date_parse a b = true -> not_older Date_parse a b.
Proof.
  unfold stays_before, not_older, time_of, compareFn.
  intros [ta ->] [tb ->]. intros H. apply Z.leb_le in H. lia.
Qed.

Lemma not_older_trans (a b c : Report) :
  not_older Date_parse a b -> not_older Date_parse b c -> not_older Date_parse a c.
Proof.
  unfold not_older.
  destruct (time_of Date_parse a), (time_of Date_parse b), (time_of Date_parse c); try done. lia.
Qed.

Lemma sort_insert_sorted (x : Report) (l : list Report) :
  is_Some (time_of Date_parse x) -> Forall (fun r => is_Some (time_of Date_parse r)) l ->
  StronglySorted (not_older Date_parse) l ->
  StronglySorted (not_older Date_parse) (sort_insert Date_parse x l).
Proof.
  intros Hx Hl Hs. induction Hs as [|y l Hs IH Hy]; cbn [sort_insert].
  - by repeat constructor.
  - apply Forall_cons in Hl as [Hvy Hl].
    destruct (stays_before Date_parse x y) eqn:Hxy.
    + assert (Hxy' := stays_before_true x y Hx Hvy Hxy).
      constructor; [by constructor|]. constructor; [done|].
      eapply Forall_impl; [exact Hy|]. intros z Hz. by eapply not_older_trans.
    + apply stays_before_false in Hxy as [Hyx _].
      constructor; [by apply IH|].
      rewrite sort_insert_Permutation. by constructor.
Qed.

Lemma Array_sort_sorted (l : list Report) :
  Forall (fun r => is_Some (time_of Date_parse r)) l ->
  StronglySorted (not_older Date_parse) (Array_sort Date_parse l).
Proof.
  induction 1 as [|x l Hx Hl IH]; cbn [Array_sort]; [constructor|].
  apply sort_insert_sorted; [done| |done].
  by rewrite Array_sort_Permutation.
Qed.

Lemma filter_time_head (x : Report) (l1 l2 : list Report) :
  (forall t, List.filter (fun r => bool_decide (time_of Date_parse r = t)) (x :: l1)
             = List.filter (fun r => bool_decide (time_of Date_parse r = t)) l2) ->
  In x l2.
Proof.
  intros H. specialize (H (time_of Date_parse x)). cbn [List.filter] in H.
  rewrite bool_decide_eq_true_2 in H by done.
  assert (Hx : In x (List.filter
                       (fun r => bool_decide (time_of Date_parse r = time_of Date_parse x)) l2))
    by (rewrite <- H; left; reflexivity).
  by apply filter_In in Hx as [Hx _].
Qed.

(** A sequence has one stable descending arrangement: two descending
    sequences in which the reports of each time value appear in the same
    order are equal. *)
Lemma sorted_stable_unique (l1 l2 : list Report) :
  StronglySorted (not_older Date_parse) l1 ->
  StronglySorted (not_older Date_parse) l2 ->
  (forall t, List.filter (fun r => bool_decide (time_of Date_parse r = t)) l1
             = List.filter (fun r => bool_decide (time_of Date_parse r = t)) l2) ->
  l1 = l2.
Proof.
  intros Hs1. revert l2. induction Hs1 as [|x l1 Hs1 IH Hx]; intros l2 Hs2 Hf.
  - destruct l2 as [|y l2]; [reflexivity|].
    exfalso. apply (filter_time_head y l2 []). intros t. by rewrite Hf.
  - destruct Hs2 as [|y l2 Hs2 Hy].
    { exfalso. by apply (filter_time_head x l1 []). }
    assert (Hxy : time_of Date_parse x = time_of Date_parse y).
    { assert (Hx2 := filter_time_head x l1 (y :: l2) Hf).
      assert (Hy1 : In y (x :: l1)).
      { apply (filter_time_head y l2). intros t. by rewrite Hf. }
      destruct Hx2 as [->|Hx2]; [reflexivity|].
      destruct Hy1 as [->|Hy1]; [reflexivity|].
      rewrite Forall_forall in Hx, Hy.
      assert (H1 := Hx y (proj2 (list_elem_of_In _ _) Hy1)).
      assert (H2 := Hy x (proj2 (list_elem_of_In _ _) Hx2)).
      unfold not_older in H1, H2.
      destruct (time_of Date_parse x), (time_of Date_parse y); try done.
      f_equal. lia. }
    assert (Hhead := Hf (time_of Date_parse x)). cbn [List.filter] in Hhead.
    rewrite bool_decide_eq_true_2 in Hhead by done.
    rewrite (bool_decide_eq_true_2 _ (eq_sym Hxy)) in Hhead.
    injection Hhead as <- Hhead. f_equal. apply IH; [done|].
    intros t. specialize (Hf t). cbn [List.filter] in Hf.
    destruct (bool_decide (time_of Date_parse x = t)); congruence.
Qed.

(** So the choice of insertion for [Array_sort] loses nothing: on valid
    dates any stable descending arrangement of [l] is [Array_sort l]. *)
Lemma Array_sort_unique (l l' : list Report) :
  Forall (fun r => is_Some (time_of Date_parse r)) l ->
  StronglySorted (not_older Date_parse) l' ->
  (forall t, List.filter (fun r => bool_decide (time_of Date_parse r = t)) l'
             = List.filter (fun r => bool_decide (time_of Date_parse r = t)) l) ->
  l' = Array_sort Date_parse l.
Proof.
  intros Hl Hs Hf. apply sorted_stable_unique; [done|by apply Array_sort_sorted|].
  intros t. rewrite Hf. symmetry. apply Array_sort_filter.
  intros a b Ha Hb. apply bool_decide_eq_true in Ha, Hb.
  apply stays_before_same_time. congruence.
Qed.

(** C9 (as amended).  On a sequence of reports whose submittedAt values
    are all valid dates, [sortNewestFirst] rearranges the sequence
    without adding or losing a report, the result is in descending order
    of time, and reports with the same time value, in particular reports
    with the same submittedAt string, come out in the order they went
    in.  There is one such arrangement, so every stable sorting
    algorithm returns it. *)
Theorem sortNewestFirst_stable_descending (R : list Report) :
  Forall (fun r => is_Some (time_of Date_parse r)) R ->
  Permutation (sortNewestFirst Date_parse R) R
  /\ StronglySorted (not_older Date_parse) (sortNewestFirst Date_parse R)
  /\ (forall t, List.filter (fun r => bool_decide (time_of Date_parse r = t))
                            (sortNewestFirst Date_parse R)
                = List.filter (fun r => bool_decide (time_of Date_parse r = t)) R)
  /\ (forall s, List.filter (fun r => bool_decide (submittedAt r = s))
                            (sortNewestFirst Date_parse R)
                = List.filter (fun r => bool_decide (submittedAt r = s)) R)
  /\ (forall R',
        StronglySorted (not_older Date_parse) R' ->
        (forall t, List.filter (fun r => bool_decide (time_of Date_parse r = t)) R'
                   = List.filter (fun r => bool_decide (time_of Date_parse r = t)) R) ->
        R' = sortNewestFirst Date_parse R).
Proof.
  intros Hvalid. unfold sortNewestFirst. split; [apply Array_sort_Permutation|].
  split; [by apply Array_sort_sorted|]. split; [|split].
  - intros t. apply Array_sort_filter. intros a b Ha Hb.
    apply bool_decide_eq_true in Ha, Hb. apply stays_before_same_time. congruence.
  - intros s. apply Array_sort_filter. intros a b Ha Hb.
    apply bool_decide_eq_true in Ha, Hb. apply stays_before_same_time.
    unfold time_of. congruence.
  - intros R' Hs Hf. by apply Array_sort_unique.
Qed.
End SortingFacts.

Example iso_time_sample : iso_time (js "2023-11-14T22:13:20.000Z") = Some 1700000000000%Z.
Proof. vm_compute. reflexivity. Qed.

Example sortNewestFirst_sample :
  sortNewestFirst iso_time [pothole; streetlight; garbage]
  = [garbage; streetlight; pothole].
Proof. vm_compute. reflexivity. Qed.

(** Two reports submitted in the same millisecond keep their order. *)
Example sortNewestFirst_tie :
  sortNewestFirst iso_time
    [set_status (js "Resolved") pothole; garbage; set_status (js "In Progress") pothole]
  = [garbage; set_status (js "Resolved") pothole; set_status (js "In Progress") pothole].
Proof. vm_compute. reflexivity. Qed.

Lemma sortNewestFirst_stable_descending_witness :
  Forall (fun r => is_Some (time_of iso_time r)) [pothole; streetlight; garbage]
  /\ StronglySorted (not_older iso_time)
       (sortNewestFirst iso_time [pothole; streetlight; garbage]).
Proof.
  assert (Hvalid : Forall (fun r => is_Some (time_of iso_time r))
                          [pothole; streetlight; garbage]).
  { repeat constructor; vm_compute; eexists; reflexivity. }
  split; [exact Hvalid|].
  exact (proj1 (proj2 (sortNewestFirst_stable_descending iso_time
                         [pothole; streetlight; garbage] Hvalid))).
Defined.

(** C9, the claim as stated fails: a report whose submittedAt is not a
    date makes the comparator return NaN, which the sort takes for
    equal; such a report and a dated one stay in the order they came
    in, whichever it was, so the result is not ordered by submittedAt. *)
Lemma sortNewestFirst_invalid_date :
  submittedAt undated ≠ submittedAt pothole
  /\ compareFn iso_time undated pothole = None
  /\ compareFn iso_time pothole undated = None
  /\ sortNewestFirst iso_time [undated; pothole] = [undated; pothole]
  /\ sortNewestFirst iso_time [pothole; undated] = [pothole; undated]
  /\ ~ StronglySorted (not_older iso_time) (sortNewestFirst iso_time [undated; pothole])
  /\ ~ StronglySorted (not_older iso_time) (sortNewestFirst iso_time [pothole; undated]).
Proof.
  split; [discriminate|]. do 4 (split; [vm_compute; reflexivity|]).
  split; intros H; apply StronglySorted_inv in H as [_ H];
    apply Forall_cons in H as [H _]; vm_compute in H; exact H.
Qed.

(** ** A scenario across the store and the views *)

(** With a Pending, a Resolved and an In Progress report in the store,
    filtering by "Resolved" gives the one Resolved report; after it is
    reopened, filtering by "Pending" gives two reports. *)
Example reopen_scenario :
  let R := [pothole; streetlight; garbage] in
  let w := persist (reports_array R) fresh_world in
  let w' := snd (handle (Click (ReopenBtn (id streetlight))) w) in
  filterByStatus R (js "Resolved") = [streetlight]
  /\ holds [pothole; set_status (js "Pending") streetlight; garbage] w'
  /\ filterByStatus [pothole; set_status (js "Pending") streetlight; garbage]
       (js "Pending")
     = [pothole; set_status (js "Pending") streetlight].
Proof. cbv zeta. split; [reflexivity|]. split; vm_compute; reflexivity. Qed.

(** Updating a status twice is the same as updating it once. *)
Example update_twice :
  let w := persist (reports_array [pothole; streetlight]) fresh_world in
  let once := snd (updateReportStatus (id pothole) (js "Resolved") w) in
  snd (updateReportStatus (id pothole) (js "Resolved") once) = once.
Proof. vm_compute. reflexivity. Qed.

(** * Further properties of the code *)

(** ** The store *)

Lemma first_or_none (i : jsstring) (R : list Report) :
  Forall (fun r => id r ≠ i) R
  \/ exists R1 r R2, R = R1 ++ r :: R2 /\ Forall (fun x => id x ≠ i) R1 /\ id r = i.
Proof.
  destruct (decide (Exists (fun r => id r = i) R)) as [H|H].
  - right. by apply first_with_id.
  - left. apply Forall_forall. intros r Hr Hid. apply H, Exists_exists. by exists r.
Qed.

Lemma persist_persist (v : value) (w : world) : persist v (persist v w) = persist v w.
Proof. unfold persist. cbn. by rewrite insert_insert_eq. Qed.

Lemma fits_persist (v : value) (w : world) :
  fits v w = true -> fits v (persist v w) = true.
Proof.
  unfold fits, persist. cbn [localStorage browser]. by rewrite insert_insert_eq.
Qed.

(** X1.  Updating a status a second time changes nothing: whatever
    sequence of reports the store reads as, a second call of
    [updateReportStatus i s] ends as the first did (normally, or with
    the quota error) and leaves the state the first call left. *)
Theorem updateReportStatus_idempotent (R : list Report) (i s : jsstring) (w : world) :
  holds R w ->
  updateReportStatus i s (snd (updateReportStatus i s w))
  = (fst (updateReportStatus i s w), snd (updateReportStatus i s w)).
Proof.
  intros Hw. destruct (first_or_none i R) as [Hmiss|(R1 & r & R2 & -> & H1 & Hr)].
  - rewrite (updateReportStatus_miss R i s w Hw Hmiss). cbn [fst snd].
    by apply (updateReportStatus_miss R).
  - destruct (fits (reports_array (R1 ++ set_status s r :: R2)) w) eqn:Hfit.
    + rewrite (updateReportStatus_hit R1 R2 r i s w Hw H1 Hr Hfit). cbn [fst snd].
      rewrite (updateReportStatus_hit R1 R2 (set_status s r) i s);
        [|apply holds_persist|done|done|by apply fits_persist].
      by rewrite persist_persist.
    + rewrite (updateReportStatus_full R1 R2 r i s w Hw H1 Hr Hfit). cbn [fst snd].
      by apply (updateReportStatus_full R1 R2 r).
Qed.

Lemma updateReportStatus_idempotent_witness :
  holds [pothole; streetlight] (persist (reports_array [pothole; streetlight]) fresh_world)
  /\ updateReportStatus (id pothole) (js "Resolved")
       (snd (updateReportStatus (id pothole) (js "Resolved")
               (persist (reports_array [pothole; streetlight]) fresh_world)))
     = (fst (updateReportStatus (id pothole) (js "Resolved")
               (persist (reports_array [pothole; streetlight]) fresh_world)),
        snd (updateReportStatus (id pothole) (js "Resolved")
               (persist (reports_array [pothole; streetlight]) fresh_world))).
Proof.
  split; [apply holds_persist|].
  apply (updateReportStatus_idempotent [pothole; streetlight]). apply holds_persist.
Defined.

Lemma getReports_malformed_slot (text : jsstring) (e : exn) (w : world) :
  localStorage w !! STORAGE_KEY = Some text -> text ≠ [] ->
  JSON_parse text = Throw e ->
  getReports w = (Ok (VArr []), logged e w).
Proof.
  intros Hslot Hne Hparse. rewrite getReports_unfold, Hslot.
  destruct text as [|c text]; [done|].
  cbn [or_else]. by rewrite Hparse.
Qed.

Lemma getReports_absent_slot (w : world) :
  localStorage w !! STORAGE_KEY = None -> getReports w = (Ok (VArr []), w).
Proof. intros Hslot. by rewrite getReports_unfold, Hslot. Qed.

(** X2.  [addReport] on a slot whose non-empty contents [JSON.parse]
    rejects does not keep those contents: it logs the parse error and,
    when the one-element array of the new value fits the quota,
    overwrites the slot with it, so that [getReports] then returns that
    array; when it does not fit, the quota error is thrown and the slot
    keeps its contents.  (The new value is any value without Numbers,
    its keys distinct and no array indices.) *)
Theorem addReport_overwrites_malformed (text : jsstring) (e : exn) (r : value)
    (w : world) :
  localStorage w !! STORAGE_KEY = Some text -> text ≠ [] ->
  JSON_parse text = Throw e -> plain r = true ->
  if fits (VArr [r]) w then
    addReport r w = (Ok tt, persist (VArr [r]) (logged e w))
    /\ getReports (persist (VArr [r]) (logged e w))
       = (Ok (VArr [r]), persist (VArr [r]) (logged e w))
  else
    addReport r w = (Throw QuotaExceededError, logged e w)
    /\ localStorage (logged e w) = localStorage w.
Proof.
  intros Hslot Hne Hparse Hr.
  assert (Hrun : addReport r w = saveReports (VArr [r]) (logged e w)).
  { rewrite addReport_unfold, (getReports_malformed_slot text e w Hslot Hne Hparse).
    reflexivity. }
  rewrite Hrun, saveReports_unfold.
  rewrite (fits_same_area (VArr [r]) w (logged e w)) by reflexivity.
  destruct (fits (VArr [r]) w); [|by split]. split; [reflexivity|].
  apply getReports_persisted; [|apply persisted_persist].
  cbn [plain forallb]. by rewrite Hr.
Qed.

Lemma addReport_overwrites_malformed_witness :
  addReport (report_object pothole)
    (World {[ STORAGE_KEY := js "[{broken" ]} [] blank_form sample_engine)
  = (Ok tt, persist (VArr [report_object pothole])
              (logged SyntaxError (World {[ STORAGE_KEY := js "[{broken" ]} [] blank_form sample_engine))).
Proof.
  refine (proj1 (addReport_overwrites_malformed (js "[{broken") SyntaxError
                   (report_object pothole)
                   (World {[ STORAGE_KEY := js "[{broken" ]} [] blank_form sample_engine)
                   _ _ _ _)).
  - reflexivity.
  - discriminate.
  - vm_compute. reflexivity.
  - reflexivity.
Defined.

(** X3.  [updateReportStatus] never creates the slot and never replaces
    contents it cannot read: with the slot absent it does nothing, and
    with non-empty contents that [JSON.parse] rejects it only logs the
    error. *)
Theorem updateReportStatus_keeps_unreadable (i s : jsstring) (w : world) :
  (localStorage w !! STORAGE_KEY = None -> updateReportStatus i s w = (Ok tt, w))
  /\ (forall text e,
        localStorage w !! STORAGE_KEY = Some text -> text ≠ [] ->
        JSON_parse text = Throw e ->
        updateReportStatus i s w = (Ok tt, logged e w)
        /\ localStorage (snd (updateReportStatus i s w)) = localStorage w).
Proof.
  split.
  - intros Hslot. rewrite updateReportStatus_unfold, (getReports_absent_slot w Hslot).
    reflexivity.
  - intros text e Hslot Hne Hparse.
    assert (Hrun : updateReportStatus i s w = (Ok tt, logged e w)).
    { rewrite updateReportStatus_unfold,
        (getReports_malformed_slot text e w Hslot Hne Hparse). reflexivity. }
    split; [exact Hrun|]. by rewrite Hrun.
Qed.

Lemma updateReportStatus_keeps_unreadable_witness :
  updateReportStatus (js "report_1") (js "Resolved")
    (World {[ STORAGE_KEY := js "[{broken" ]} [] blank_form sample_engine)
  = (Ok tt, logged SyntaxError (World {[ STORAGE_KEY := js "[{broken" ]} [] blank_form sample_engine)).
Proof.
  apply (proj2 (updateReportStatus_keeps_unreadable (js "report_1") (js "Resolved")
                  (World {[ STORAGE_KEY := js "[{broken" ]} [] blank_form sample_engine))
               (js "[{broken") SyntaxError).
  - reflexivity.
  - discriminate.
  - vm_compute. reflexivity.
Defined.

(** X4.  Logging out removes the [userType] entry and nothing else: every
    other key of [localStorage] keeps its value, and [getReports] returns
    afterwards what it returned before. *)
Theorem on_logout_keeps_reports (w : world) :
  exists w',
    on_logout w = (Ok tt, w')
    /\ localStorage w' !! js "userType" = None
    /\ (forall k, k ≠ js "userType" -> localStorage w' !! k = localStorage w !! k)
    /\ fst (getReports w') = fst (getReports w).
Proof.
  eexists. split; [reflexivity|]. cbn [localStorage].
  split; [apply lookup_delete_eq|]. split.
  - intros k Hk. by apply lookup_delete_ne.
  - rewrite !getReports_unfold. cbn [localStorage].
    rewrite lookup_delete_ne by discriminate.
    by destruct (JSON_parse _).
Qed.

(** ** The submit handler, in every case *)

Lemma getReports_touches_console_only (w : world) :
  exists v w',
    getReports w = (Ok v, w')
    /\ localStorage w' = localStorage w /\ page w' = page w
    /\ browser w' = browser w.
Proof.
  rewrite getReports_unfold. destruct (JSON_parse _) as [v|e]; by eexists _, _.
Qed.

Lemma submit_attempt_outcome (env : readings) (w : world) :
  (exists w', submit_attempt env w = (Ok tt, w')
              /\ page w' = reset_fields
                             (set_submit false (js "Submit Report")
                                (show_message (js "Report submitted successfully!")
                                   (js "p-3 rounded-lg text-sm bg-green-100 text-green-800")
                                   (page w))))
  \/ (exists e w', submit_attempt env w = (Throw e, w')
                   /\ localStorage w' = localStorage w /\ page w' = page w
                   /\ browser w' = browser w).
Proof.
  unfold submit_attempt, read_page, mbind, JS_bind.
  destruct (issue_category (page w)) as [|c cat]; [right; by eexists _, _|].
  destruct (location_value (page w)) as [|l loc]; [right; by eexists _, _|].
  destruct (head (photo_upload (page w))) as [[d|]|]; try (right; by eexists _, _).
  cbn [readImageAsDataURL mret JS_ret]. rewrite addReport_unfold.
  destruct (getReports_touches_console_only w) as (v & w1 & -> & Hls & Hpg & Hbr).
  destruct v as [ | b | n | s | elems | props];
    try (right; eexists _, _; cbn [Array_push throw]; by repeat split).
  cbn [Array_push mret JS_ret]. rewrite saveReports_unfold.
  destruct (fits _ w1).
  - left. eexists. split; [reflexivity|]. unfold persist. cbn [page].
    by rewrite Hpg.
  - right. by eexists _, _.
Qed.

(** X5.  The submit handler never throws and never leaves the button
    disabled: every run ends with the button enabled and labelled
    "Submit Report" and with a visible message.  When the attempt (the
    [try] block, run with the button disabled and the message hidden)
    returns, the message is the success text; when it throws, the
    message is "Error: " followed by the message of the very exception
    it threw, and [localStorage] is as it was before the run. *)
Theorem on_submit_always_recovers (env : readings) (w : world) :
  exists w',
    on_submit env w = (Ok tt, w')
    /\ submit_disabled (page w') = false
    /\ submit_text (page w') = js "Submit Report"
    /\ message_hidden (page w') = false
    /\ match fst (submit_attempt env
                    (World (localStorage w) (console w)
                       (hide_message (set_submit true (js "Submitting...") (page w)))
                       (browser w))) with
       | Ok _ => message_text (page w') = js "Report submitted successfully!"
       | Throw e =>
           message_text (page w') = js "Error: " ++ error_message (browser w) e
           /\ localStorage w' = localStorage w
       end.
Proof.
  rewrite on_submit_unfold. cbv zeta.
  destruct (submit_attempt_outcome env
              (World (localStorage w) (console w)
                 (hide_message (set_submit true (js "Submitting...") (page w))) (browser w)))
    as [(w' & -> & Hpg)|(e & w' & -> & Hls & Hpg & Hbr)].
  - exists w'. split; [reflexivity|]. rewrite Hpg. by repeat split.
  - eexists. split; [reflexivity|]. cbn [page localStorage fst].
    repeat split; [|exact Hls]. by rewrite Hbr.
Qed.

(** X6.  When the photo cannot be read, the handler shows
    "Error: undefined" (the rejection value is the reader's event, which
    has no message), enables the button again, keeps what the user typed
    and leaves [localStorage] untouched. *)
Theorem on_submit_unreadable_photo (env : readings) (w : world) (files : list File) :
  issue_category (page w) ≠ [] -> location_value (page w) ≠ [] ->
  photo_upload (page w) = UnreadableFile :: files ->
  exists w',
    on_submit env w = (Ok tt, w')
    /\ localStorage w' = localStorage w
    /\ message_text (page w') = js "Error: undefined"
    /\ submit_disabled (page w') = false
    /\ issue_category (page w') = issue_category (page w)
    /\ location_value (page w') = location_value (page w)
    /\ description_value (page w') = description_value (page w)
    /\ photo_upload (page w') = photo_upload (page w).
Proof.
  intros Hc Hl Hp. rewrite (on_submit_unreadable env w files Hc Hl Hp).
  eexists. split; [reflexivity|]. by repeat split.
Qed.

Lemma on_submit_unreadable_photo_witness :
  exists w',
    on_submit (Readings 1700000000000 (js "0.k3j9x2a1") (js "2023-11-14T22:13:20.000Z"))
      (World ∅ [] (fill_form (js "Pothole") (js "Main St") [] [UnreadableFile] blank_form) sample_engine)
    = (Ok tt, w')
    /\ localStorage w' = ∅
    /\ message_text (page w') = js "Error: undefined".
Proof.
  destruct (on_submit_unreadable_photo
              (Readings 1700000000000 (js "0.k3j9x2a1") (js "2023-11-14T22:13:20.000Z"))
              (World ∅ [] (fill_form (js "Pothole") (js "Main St") [] [UnreadableFile]
                             blank_form) sample_engine) [])
    as (w' & Hrun & Hstore & Hmsg & _); [discriminate|discriminate|reflexivity|].
  exists w'. by repeat split.
Defined.

(** ** What no sequence of steps does *)

Lemma code_transition_known (s s' : jsstring) : code_transition s s' -> known_status s'.
Proof. unfold known_status. destruct 1; auto. Qed.




Lemma status_set_known (i s : jsstring) (R R' : list Report) :
  Forall (fun r => known_status (status r)) R -> known_status s ->
  status_set i s R R' ->
  Forall (fun r => known_status (status r)) R'.
Proof.
  intros HR Hs (R1 & r & R2 & -> & _ & _ & ->).
  apply Forall_app in HR as [H1 H2]. apply Forall_cons in H2 as [_ H2].
  apply Forall_app. split; [done|]. by constructor.
Qed.

(** X8.  Through its own buttons the program writes only the three
    status strings: if every stored report has status "Pending",
    "In Progress" or "Resolved", the same holds after a submission, a
    logout, or a click on a button that the templates write for a stored
    report.  The click handler itself writes whatever [data-status] the
    clicked element carries: a click for the id of a stored report and
    any status that fits the quota leaves a report with that status. *)
Theorem template_steps_keep_known_statuses (R : list Report) (e : event) (w : world) :
  holds R w ->
  (Forall (fun r => known_status (status r)) R ->
   (forall b, e = Click b -> template_button R b) ->
   exists R', holds R' (snd (handle e w))
              /\ Forall (fun r => known_status (status r)) R')
  /\ (forall R1 r R2 s,
        R = R1 ++ r :: R2 -> Forall (fun x => id x ≠ id r) R1 ->
        fits (reports_array (R1 ++ set_status s r :: R2)) w = true ->
        holds (R1 ++ set_status s r :: R2)
              (snd (handle (Click (StatusBtn (id r) s)) w))).
Proof.
  intros Hw. split.
  - intros HR Hb. destruct (handle_store R e w Hw) as (R' & HR' & He).
    exists R'. split; [exact HR'|].
    destruct e as [cat loc desc files env|b|].
    + destruct He as [->|(r & Hr & _ & ->)]; [done|].
      apply Forall_app. split; [done|]. constructor; [|constructor].
      rewrite Hr. by left.
    + destruct He as [->|He]; [done|].
      destruct (Hb b eq_refl) as (r & Hr & Hbr).
      apply template_button_target in Hbr as [_ Hs].
      apply (status_set_known (target b).1 (target b).2 R R' HR); [|exact He].
      by eapply code_transition_known.
    + by rewrite He.
  - intros R1 r R2 s -> H1 Hfit. cbn [handle on_click].
    rewrite (updateReportStatus_hit R1 R2 r (id r) s w Hw H1 eq_refl Hfit).
    apply holds_persist.
Qed.

Lemma template_steps_keep_known_statuses_witness :
  holds [pothole; streetlight] (persist (reports_array [pothole; streetlight]) fresh_world)
  /\ holds [pothole; set_status (js "Closed") streetlight]
       (snd (handle (Click (StatusBtn (id streetlight) (js "Closed")))
               (persist (reports_array [pothole; streetlight]) fresh_world))).
Proof.
  split; [apply holds_persist|].
  apply (proj2 (template_steps_keep_known_statuses [pothole; streetlight]
                  (Click (StatusBtn (id streetlight) (js "Closed")))
                  (persist (reports_array [pothole; streetlight]) fresh_world)
                  (holds_persist _ _))
               [pothole] streetlight []).
  - reflexivity.
  - constructor; [vm_compute; discriminate|constructor].
  - vm_compute. reflexivity.
Defined.

(** ** Identifiers and the store *)

(** X9.  The clock reading alone separates identifiers: two ids built
    from different values of [Date.now()] differ whatever the random
    numerals were.  Of the random numeral only the first nine characters
    count: equal clock readings and numerals that agree on them give the
    same id. *)
Theorem generateId_clock_and_nine (env env' : readings) :
  (Date_now env ≠ Date_now env' -> generateId env ≠ generateId env')
  /\ (Date_now env = Date_now env' ->
      take 9 (Math_random_toString36 env) = take 9 (Math_random_toString36 env') ->
      generateId env = generateId env').
Proof.
  split.
  - intros Hne Heq. apply generateId_eq in Heq as [Hnow _]. by apply Hne.
  - intros Hnow Hnine. apply generateId_eq. split; [done|].
    unfold substring. change (9 - 2) with 7.
    rewrite !take_drop_commute. cbn [Nat.add]. by rewrite Hnine.
Qed.

Lemma generateId_clock_and_nine_witness :
  generateId (Readings 1700000000000 (js "0.k3j9x2a1") (js "2023-11-14T22:13:20.000Z"))
  ≠ generateId (Readings 1700000000001 (js "0.k3j9x2a1") (js "2023-11-14T22:13:20.001Z"))
  /\ generateId (Readings 1700000000000 (js "0.k3j9x2a1") (js "2023-11-14T22:13:20.000Z"))
     = generateId (Readings 1700000000000 (js "0.k3j9x2a7zz") (js "2023-11-14T22:13:20.000Z")).
Proof.
  split.
  - apply (proj1 (generateId_clock_and_nine _ _)). discriminate.
  - apply (proj2 (generateId_clock_and_nine _ _)); reflexivity.
Defined.

Lemma fits_after_persist (v v0 : value) (w : world) :
  fits v (persist v0 w) = fits v w.
Proof.
  unfold fits, persist. cbn [localStorage browser]. by rewrite insert_insert_eq.
Qed.

(** X10.  A report that has just been added is the one a status update
    by its id reaches exactly when no earlier report has that id.  With
    a fresh id the update changes the new report and nothing else; with
    an id already in the store it changes the first earlier report of
    that id and leaves the new report as it was added.  (Both writes are
    taken to fit the quota.) *)
Theorem addReport_then_updateReportStatus
    (R : list Report) (r : Report) (s : jsstring) (w : world) :
  holds R w -> fits (reports_array (R ++ [r])) w = true ->
  (Forall (fun x => id x ≠ id r) R ->
   fits (reports_array (R ++ [set_status s r])) w = true ->
   updateReportStatus (id r) s (snd (addReport (report_object r) w))
   = (Ok tt, persist (reports_array (R ++ [set_status s r]))
               (snd (addReport (report_object r) w))))
  /\ (forall R1 x R2,
        R = R1 ++ x :: R2 -> Forall (fun y => id y ≠ id r) R1 -> id x = id r ->
        fits (reports_array (R1 ++ set_status s x :: R2 ++ [r])) w = true ->
        updateReportStatus (id r) s (snd (addReport (report_object r) w))
        = (Ok tt, persist (reports_array (R1 ++ set_status s x :: R2 ++ [r]))
                    (snd (addReport (report_object r) w)))).
Proof.
  intros Hw Hadd. rewrite (addReport_holds R r w Hw Hadd). cbn [snd]. split.
  - intros Hfresh Hfit.
    rewrite (updateReportStatus_hit R [] r (id r) s);
      [done|apply holds_persist|done|done|by rewrite fits_after_persist].
  - intros R1 x R2 -> H1 Hx Hfit.
    assert (Heq : (R1 ++ x :: R2) ++ [r] = R1 ++ x :: (R2 ++ [r]))
      by (by rewrite <- app_assoc).
    rewrite Heq. apply updateReportStatus_hit;
      [apply holds_persist|done|done|by rewrite fits_after_persist].
Qed.

Lemma addReport_then_updateReportStatus_witness :
  updateReportStatus (id garbage) (js "Resolved")
    (snd (addReport (report_object garbage)
            (persist (reports_array [pothole; streetlight]) fresh_world)))
  = (Ok tt, persist (reports_array [pothole; streetlight;
                                    set_status (js "Resolved") garbage])
              (snd (addReport (report_object garbage)
                      (persist (reports_array [pothole; streetlight]) fresh_world)))).
Proof.
  apply (proj1 (addReport_then_updateReportStatus [pothole; streetlight] garbage
                  (js "Resolved")
                  (persist (reports_array [pothole; streetlight]) fresh_world)
                  (holds_persist _ _) eq_refl)).
  - constructor; [vm_compute; discriminate|].
    constructor; [vm_compute; discriminate|]. constructor.
  - vm_compute. reflexivity.
Defined.





(** ** The lists of the pages *)

Lemma filterByStatus_Permutation (R R' : list Report) (s : jsstring) :
  Permutation R R' -> Permutation (filterByStatus R s) (filterByStatus R' s).
Proof.
  induction 1 as [|x l l' _ IH|x y l|l l' l'' _ IH1 _ IH2].
  - constructor.
  - rewrite !filterByStatus_cons. destruct (bool_decide _); [by constructor|done].
  - rewrite !filterByStatus_cons.
    destruct (bool_decide (status x = s)), (bool_decide (status y = s));
      try reflexivity. apply perm_swap.
  - by etrans.
Qed.

Lemma status_partition (R : list Report) :
  Permutation
    (filterByStatus R (js "Pending") ++ filterByStatus R (js "In Progress")
     ++ filterByStatus R (js "Resolved"))
    (List.filter (fun r => bool_decide (known_status (status r))) R).
Proof.
  induction R as [|r R IH]; [constructor|].
  rewrite !filterByStatus_cons. cbn [List.filter]. unfold known_status at 1.
  destruct (decide (status r = js "Pending")) as [Hp|Hp].
  { rewrite Hp. rewrite (bool_decide_eq_true_2 (js "Pending" = js "Pending")) by done.
    rewrite (bool_decide_eq_false_2 (js "Pending" = js "In Progress")) by discriminate.
    rewrite (bool_decide_eq_false_2 (js "Pending" = js "Resolved")) by discriminate.
    rewrite bool_decide_eq_true_2 by (by left). cbn [app]. by constructor. }
  destruct (decide (status r = js "In Progress")) as [Hi|Hi].
  { rewrite Hi. rewrite (bool_decide_eq_false_2 (js "In Progress" = js "Pending"))
      by discriminate.
    rewrite (bool_decide_eq_true_2 (js "In Progress" = js "In Progress")) by done.
    rewrite (bool_decide_eq_false_2 (js "In Progress" = js "Resolved")) by discriminate.
    rewrite bool_decide_eq_true_2 by (by right; left). cbn [app].
    rewrite <- Permutation_middle. by constructor. }
  destruct (decide (status r = js "Resolved")) as [Hr|Hr].
  { rewrite Hr. rewrite (bool_decide_eq_false_2 (js "Resolved" = js "Pending"))
      by discriminate.
    rewrite (bool_decide_eq_false_2 (js "Resolved" = js "In Progress")) by discriminate.
    rewrite (bool_decide_eq_true_2 (js "Resolved" = js "Resolved")) by done.
    rewrite bool_decide_eq_true_2 by (by right; right).
    rewrite app_assoc, <- Permutation_middle, <- app_assoc. by constructor. }
  rewrite !bool_decide_eq_false_2 by tauto. exact IH.
Qed.

Section ListFacts.
Variable Date_parse : jsstring -> option Z.

Lemma filter_StronglySorted (f : Report -> bool) (l : list Report) :
  StronglySorted (not_older Date_parse) l ->
  StronglySorted (not_older Date_parse) (List.filter f l).
Proof.
  induction 1 as [|x l Hs IH Hx]; cbn [List.filter]; [constructor|].
  destruct (f x); [|done]. constructor; [done|].
  apply Forall_forall. intros y Hy. apply list_elem_of_In, filter_In in Hy as [Hy _].
  rewrite Forall_forall in Hx. by apply Hx, list_elem_of_In.
Qed.

Lemma filter_comm (f g : Report -> bool) (l : list Report) :
  List.filter f (List.filter g l) = List.filter g (List.filter f l).
Proof.
  induction l as [|x l IH]; [done|]. cbn [List.filter].
  destruct (f x) eqn:Hf, (g x) eqn:Hg; cbn [List.filter];
    rewrite ?Hf, ?Hg, IH; reflexivity.
Qed.

Lemma filter_valid (f : Report -> bool) (l : list Report) :
  Forall (fun r => is_Some (time_of Date_parse r)) l ->
  Forall (fun r => is_Some (time_of Date_parse r)) (List.filter f l).
Proof.
  rewrite !Forall_forall. intros H x Hx.
  apply list_elem_of_In, filter_In in Hx as [Hx _]. by apply H, list_elem_of_In.
Qed.

Lemma Array_sort_time_filter (l : list Report) (t : option Z) :
  List.filter (fun r => bool_decide (time_of Date_parse r = t)) (Array_sort Date_parse l)
  = List.filter (fun r => bool_decide (time_of Date_parse r = t)) l.
Proof.
  apply Array_sort_filter. intros a b Ha Hb. apply bool_decide_eq_true in Ha, Hb.
  apply stays_before_same_time. congruence.
Qed.

Lemma Array_sort_idempotent (l : list Report) :
  Forall (fun r => is_Some (time_of Date_parse r)) l ->
  Array_sort Date_parse (Array_sort Date_parse l) = Array_sort Date_parse l.
Proof.
  intros Hl. symmetry. apply Array_sort_unique.
  - by rewrite Array_sort_Permutation.
  - by apply Array_sort_sorted.
  - reflexivity.
Qed.

(** X12.  The Explore page shows a report exactly when its status is one
    of the three known strings, and then in exactly one of its three
    lists: together the lists are a rearrangement of the reports of
    known status.  A report with any other status is in none of them. *)
Theorem initExplorePage_partition (reports : list Report) :
  let '(pending, inProgress, resolved) := initExplorePage Date_parse reports in
  Permutation (pending ++ inProgress ++ resolved)
              (List.filter (fun r => bool_decide (known_status (status r))) reports)
  /\ forall r, ~ known_status (status r) ->
               (r ∉ pending) /\ (r ∉ inProgress) /\ (r ∉ resolved).
Proof.
  cbn [initExplorePage]. split.
  - rewrite !Array_sort_Permutation. apply status_partition.
  - intros r Hr.
    assert (Hnot : forall s, known_status s -> r ∉ Array_sort Date_parse (filterByStatus reports s)).
    { intros s Hs Hin. rewrite Array_sort_Permutation in Hin.
      apply list_elem_of_In, filter_In in Hin as [_ Hin].
      apply bool_decide_eq_true in Hin. apply Hr. by rewrite Hin. }
    repeat split; apply Hnot; unfold known_status; auto.
Qed.

(** X13.  Filtering by status and sorting newest first can be done in
    either order when the dates are valid: the list the dashboard or the
    Explore page shows for a status is the part of the sorted "My
    Reports" list that has this status, in the same order. *)
Theorem filter_then_sort_is_sort_then_filter (reports : list Report) (s : jsstring) :
  Forall (fun r => is_Some (time_of Date_parse r)) reports ->
  sortNewestFirst Date_parse (filterByStatus reports s)
  = filterByStatus (sortNewestFirst Date_parse reports) s.
Proof.
  intros Hvalid. unfold sortNewestFirst. symmetry. apply Array_sort_unique.
  - by apply filter_valid.
  - apply filter_StronglySorted. by apply Array_sort_sorted.
  - intros t. unfold filterByStatus.
    rewrite filter_comm, Array_sort_time_filter. apply filter_comm.
Qed.

(** X14.  Drawing the complaint list never changes what the statistics
    show: afterwards [allReports] holds the same reports (reordered when
    the filter is "All Reports", since the sort works on that very array,
    and untouched otherwise), the filter is the same, and
    [updateStatistics] gives the same three numbers. *)
Theorem renderComplaintList_keeps_statistics (d : dashboard) :
  let d' := snd (renderComplaintList Date_parse d) in
  Permutation (allReports d') (allReports d)
  /\ currentFilter d' = currentFilter d
  /\ (currentFilter d ≠ js "All Reports" -> d' = d)
  /\ updateStatistics (allReports d') = updateStatistics (allReports d).
Proof.
  cbv zeta. unfold renderComplaintList.
  destruct (decide (currentFilter d = js "All Reports")) as [Hall|Hall].
  - rewrite bool_decide_eq_true_2 by done. cbn [snd allReports currentFilter].
    assert (Hperm := Array_sort_Permutation Date_parse (allReports d)).
    split; [done|]. split; [done|]. split; [done|].
    unfold updateStatistics. f_equal.
    + by apply Permutation_length.
    + by apply Permutation_length, filterByStatus_Permutation.
    + by apply Permutation_length, filterByStatus_Permutation.
  - rewrite bool_decide_eq_false_2 by done. cbn [snd]. by repeat split.
Qed.

(** X15.  With valid dates, drawing the complaint list a second time
    shows the same cards in the same order and leaves the dashboard's
    variables as the first drawing left them. *)
Theorem renderComplaintList_twice (d : dashboard) :
  Forall (fun r => is_Some (time_of Date_parse r)) (allReports d) ->
  renderComplaintList Date_parse (snd (renderComplaintList Date_parse d))
  = renderComplaintList Date_parse d.
Proof.
  intros Hvalid. unfold renderComplaintList.
  destruct (decide (currentFilter d = js "All Reports")) as [Hall|Hall].
  - rewrite (bool_decide_eq_true_2 _ Hall). cbn [snd allReports currentFilter].
    rewrite (bool_decide_eq_true_2 _ Hall). by rewrite Array_sort_idempotent.
  - rewrite (bool_decide_eq_false_2 _ Hall). cbn [snd].
    by rewrite (bool_decide_eq_false_2 _ Hall).
Qed.
End ListFacts.

Lemma filter_then_sort_is_sort_then_filter_witness :
  sortNewestFirst iso_time (filterByStatus [pothole; streetlight; garbage] (js "Pending"))
  = filterByStatus (sortNewestFirst iso_time [pothole; streetlight; garbage]) (js "Pending").
Proof.
  apply filter_then_sort_is_sort_then_filter.
  repeat constructor; vm_compute; eexists; reflexivity.
Defined.

Lemma renderComplaintList_twice_witness :
  renderComplaintList iso_time
    (snd (renderComplaintList iso_time
            (Dashboard [pothole; streetlight; garbage] (js "All Reports"))))
  = renderComplaintList iso_time
      (Dashboard [pothole; streetlight; garbage] (js "All Reports")).
Proof.
  apply renderComplaintList_twice.
  repeat constructor; vm_compute; eexists; reflexivity.
Defined.

Example renderComplaintList_sample :
  renderComplaintList iso_time (Dashboard [pothole; streetlight; garbage] (js "All Reports"))
  = ([garbage; streetlight; pothole],
     Dashboard [garbage; streetlight; pothole] (js "All Reports")).
Proof. vm_compute. reflexivity. Qed.

(** ** Cards and buttons *)

(** X16.  The description on an Explore card is never empty and never
    longer than 103 code units: a description of up to 100 code units is
    shown as it is, a longer one is cut after its first 100 code units
    and ends in "...", and an empty one is replaced by the text
    "No description provided.". *)
Theorem card_description_bounds (description : jsstring) :
  card_description description ≠ []
  /\ length (card_description description) <= 103
  /\ (description ≠ [] ->
      take 100 (card_description description) = take 100 description)
  /\ (description ≠ [] -> length description <= 100 ->
      card_description description = description)
  /\ (100 < length description ->
      card_description description = take 100 description ++ js "...")
  /\ (description = [] ->
      card_description description = js "No description provided.").
Proof.
  unfold card_description, substring. cbv zeta.
  destruct (Nat.ltb_spec 100 (length description)) as [Hlong|Hshort].
  - assert (Htake : length (take (100 - 0) (drop 0 description)) = 100).
    { rewrite length_take, length_drop. lia. }
    destruct (take (100 - 0) (drop 0 description) ++ js "...") as [|c rest] eqn:Hshown.
    { apply (f_equal length) in Hshown. rewrite length_app, Htake in Hshown.
      cbn in Hshown. lia. }
    rewrite <- Hshown. split; [by rewrite Hshown|]. split.
    { rewrite length_app, Htake. cbn. lia. }
    split; [|split; [intros _ Hle; exfalso; lia|split]].
    + intros _. rewrite take_app_le by lia. cbn [drop]. change (100 - 0) with 100.
      by rewrite take_take.
    + intros _. reflexivity.
    + intros ->. cbn in Hlong. lia.
  - destruct description as [|c rest].
    + split; [discriminate|]. split; [|repeat split; try done].
      * apply Nat.leb_le. vm_compute. reflexivity.
      * cbn [length]. lia.
    + split; [done|]. split; [cbn [length] in *; lia|].
      repeat split; try done. intros Hlong. cbn [length] in *. lia.
Qed.

Example card_description_long :
  card_description (replicate 101 (ch "a")) = replicate 100 (ch "a") ++ js "...".
Proof. vm_compute. reflexivity. Qed.

(** X17.  The templates of the two pages write a button for a report
    exactly when its status is one of the three known strings: for a
    report of known status they always write one (none is a dead end),
    for a report with any other status they write none on either page,
    and every button they write asks for one of the three known
    statuses and, the report's id being made of letters, digits and
    underscores, carries that id. *)
Theorem buttons_iff_known_status (r : Report) :
  (template_card_buttons r ++ template_row_buttons r = [] <-> ~ known_status (status r))
  /\ forall b, b ∈ template_card_buttons r ++ template_row_buttons r ->
               known_status (target b).2
               /\ (plain_id (id r) = true -> (target b).1 = id r).
Proof.
  split.
  - unfold template_card_buttons, template_row_buttons, known_status.
    destruct (decide (status r = js "Pending")) as [Hp|Hp].
    { rewrite Hp. split; [discriminate|]. intros H. exfalso. apply H. by left. }
    destruct (decide (status r = js "In Progress")) as [Hi|Hi].
    { rewrite Hi. split; [discriminate|]. intros H. exfalso. apply H. by right; left. }
    destruct (decide (status r = js "Resolved")) as [Hr|Hr].
    { rewrite Hr. split; [discriminate|]. intros H. exfalso. apply H. by right; right. }
    rewrite !bool_decide_eq_false_2 by done. split; [tauto|done].
  - intros b Hb. apply elem_of_app in Hb.
    apply template_button_target in Hb as [Hi Hs].
    split; [by eapply code_transition_known|done].
Qed.

(** ** Collections that are not made of the seven-field reports *)

(** X18.  Saving and loading is the identity on every value without a
    Number whose objects have distinct keys that are not array indices,
    not only on the seven-field reports: nested arrays, objects with
    other properties, [null] and booleans all come back as saved,
    whenever the text fits the quota; when it does not, [saveReports]
    throws the quota error and the state is as it was. *)
Theorem saveReports_getReports_plain (v : value) (w : world) :
  plain v = true ->
  if fits v w then
    getReports (snd (saveReports v w)) = (Ok v, snd (saveReports v w))
  else
    saveReports v w = (Throw QuotaExceededError, w).
Proof.
  intros Hv. rewrite saveReports_unfold. destruct (fits v w); [|reflexivity].
  cbn [snd]. apply getReports_persisted; [done|apply persisted_persist].
Qed.

Lemma saveReports_getReports_plain_witness :
  getReports
    (snd (saveReports
            (VArr [VObj [(js "id", VStr (js "a")); (js "tags", VArr [VStr (js "x"); VNull]);
                         (js "urgent", VBool true)]])
            fresh_world))
  = (Ok (VArr [VObj [(js "id", VStr (js "a")); (js "tags", VArr [VStr (js "x"); VNull]);
                     (js "urgent", VBool true)]]),
     snd (saveReports
            (VArr [VObj [(js "id", VStr (js "a")); (js "tags", VArr [VStr (js "x"); VNull]);
                         (js "urgent", VBool true)]])
            fresh_world)).
Proof.
  exact (saveReports_getReports_plain
           (VArr [VObj [(js "id", VStr (js "a")); (js "tags", VArr [VStr (js "x"); VNull]);
                        (js "urgent", VBool true)]])
           fresh_world eq_refl).
Defined.

Lemma findIndex_from_passed_over (i : jsstring) (pre rest : list value)
    (p : value -> JS bool) (i0 : Z) (w : world) :
  Forall (fun e => forall w, p e w = (Ok false, w)) pre ->
  findIndex_from i0 p (pre ++ rest) w
  = findIndex_from (i0 + Z.of_nat (length pre)) p rest w.
Proof.
  intros H. revert i0. induction H as [|e pre He _ IH]; intros i0.
  - cbn [app length]. by rewrite Z.add_0_r.
  - cbn [app findIndex_from]. unfold mbind, JS_bind. rewrite He.
    rewrite IH. cbn [length]. f_equal. lia.
Qed.

Lemma get_prop_set_prop_ne (k k' : jsstring) (v : value) (ps : list (jsstring * value)) :
  k' ≠ k -> get_prop k' (set_prop k v ps) = get_prop k' ps.
Proof.
  intros Hne. induction ps as [|[k0 v0] ps IH]; cbn [set_prop get_prop].
  - by rewrite bool_decide_eq_false_2 by done.
  - destruct (decide (k0 = k)) as [->|Hk0].
    + rewrite bool_decide_eq_true_2 by done. cbn [get_prop].
      by rewrite !bool_decide_eq_false_2 by done.
    + rewrite (bool_decide_eq_false_2 (k0 = k)) by done. cbn [get_prop].
      destruct (bool_decide (k0 = k')); [done|exact IH].
Qed.

Lemma get_prop_set_prop_eq (k : jsstring) (v : value) (ps : list (jsstring * value)) :
  get_prop k (set_prop k v ps) = Some v.
Proof.
  induction ps as [|[k0 v0] ps IH]; cbn [set_prop get_prop].
  - by rewrite bool_decide_eq_true_2.
  - destruct (decide (k0 = k)) as [->|Hk0].
    + rewrite bool_decide_eq_true_2 by done. cbn [get_prop].
      by rewrite bool_decide_eq_true_2.
    + rewrite (bool_decide_eq_false_2 (k0 = k)) by done. cbn [get_prop].
      by rewrite (bool_decide_eq_false_2 (k0 = k)).
Qed.

(** X19.  [updateReportStatus] keeps what it does not know.  In a stored
    array (of values without Numbers, their keys distinct and no array
    indices) whose first element with the given id is an object,
    whatever other properties that object and the other elements have,
    the update saves the same array with that object's [status] set:
    every other property of the object reads as before, and the other
    elements are the same.  The save writes the slot when the new text
    fits the quota and throws the quota error otherwise. *)
Theorem updateReportStatus_keeps_other_properties
    (pre post : list value) (props : list (jsstring * value))
    (i s : jsstring) (w : world) :
  getReports w = (Ok (VArr (pre ++ VObj props :: post)), w) ->
  plain (VArr (pre ++ VObj props :: post)) = true ->
  Forall (passed_over i) pre ->
  get_prop (js "id") props = Some (VStr i) ->
  updateReportStatus i s w
  = (if fits (VArr (pre ++ VObj (set_prop (js "status") (VStr s) props) :: post)) w
     then (Ok tt, persist (VArr (pre ++ VObj (set_prop (js "status") (VStr s) props)
                                   :: post)) w)
     else (Throw QuotaExceededError, w))
  /\ get_prop (js "status") (set_prop (js "status") (VStr s) props) = Some (VStr s)
  /\ forall k, k ≠ js "status" ->
               get_prop k (set_prop (js "status") (VStr s) props) = get_prop k props.
Proof.
  intros Hget _ Hpre Hid. split; [|split].
  - rewrite updateReportStatus_unfold, Hget. unfold Array_findIndex.
    rewrite (findIndex_from_passed_over i pre _ (has_id i) 0 w Hpre).
    cbn [findIndex_from]. unfold mbind at 1, JS_bind at 1.
    assert (Hhit : has_id i (VObj props) w = (Ok true, w)).
    { unfold has_id, mbind, JS_bind. cbn [member mret JS_ret]. rewrite Hid.
      cbn [is_string]. by rewrite bool_decide_eq_true_2. }
    rewrite Hhit. cbn [mret JS_ret]. rewrite Z.add_0_l.
    rewrite bool_decide_eq_true_2 by lia.
    unfold assign_at. rewrite Nat2Z.id, list_lookup_middle by done.
    unfold mbind, JS_bind. cbn [assign_member mret JS_ret].
    rewrite insert_app_r_alt by done. rewrite Nat.sub_diag.
    cbn [insert list_insert]. apply saveReports_unfold.
  - apply get_prop_set_prop_eq.
  - intros k Hk. by apply get_prop_set_prop_ne.
Qed.

Lemma updateReportStatus_keeps_other_properties_witness :
  updateReportStatus (js "b") (js "Resolved")
    (persist (VArr [VObj [(js "id", VStr (js "a"))];
                    VObj [(js "id", VStr (js "b")); (js "votes", VArr [VNull])]])
       fresh_world)
  = (Ok tt,
     persist (VArr [VObj [(js "id", VStr (js "a"))];
                    VObj [(js "id", VStr (js "b")); (js "votes", VArr [VNull]);
                          (js "status", VStr (js "Resolved"))]])
       (persist (VArr [VObj [(js "id", VStr (js "a"))];
                       VObj [(js "id", VStr (js "b")); (js "votes", VArr [VNull])]])
          fresh_world)).
Proof.
  refine (proj1 (updateReportStatus_keeps_other_properties
           [VObj [(js "id", VStr (js "a"))]] []
           [(js "id", VStr (js "b")); (js "votes", VArr [VNull])]
           (js "b") (js "Resolved") _ _ _ _ _)).
  - apply getReports_persisted; [reflexivity|apply persisted_persist].
  - reflexivity.
  - constructor; [intros w; reflexivity|constructor].
  - reflexivity.
Defined.

(** X20.  A [null] element stops the search: when the elements before it
    are passed over, [updateReportStatus] throws a TypeError at the
    [null] (for reading its [id]) and writes nothing, even if a later
    element has the id. *)
Theorem updateReportStatus_throws_at_null
    (pre post : list value) (i s : jsstring) (w : world) :
  getReports w = (Ok (VArr (pre ++ VNull :: post)), w) ->
  Forall (passed_over i) pre ->
  updateReportStatus i s w = (Throw (TypeError (ReadOfNull (js "id"))), w).
Proof.
  intros Hget Hpre. rewrite updateReportStatus_unfold, Hget. unfold Array_findIndex.
  rewrite (findIndex_from_passed_over i pre _ (has_id i) 0 w Hpre). reflexivity.
Qed.

Lemma updateReportStatus_throws_at_null_witness :
  updateReportStatus (js "b") (js "Resolved")
    (persist (VArr [VNull; VObj [(js "id", VStr (js "b"))]]) fresh_world)
  = (Throw (TypeError (ReadOfNull (js "id"))),
     persist (VArr [VNull; VObj [(js "id", VStr (js "b"))]]) fresh_world).
Proof.
  apply (updateReportStatus_throws_at_null [] [VObj [(js "id", VStr (js "b"))]]).
  - apply getReports_persisted; [reflexivity|apply persisted_persist].
  - constructor.
Defined.
